(** * rippled_monitor: the response processor and its validation tracker

    A shallow embedding of [process_responses/process_validation_output.py]
    and [process_responses/process_output.py].

    Python objects are modelled as follows.
    - JSON scalars are the type [value]; [py_eq] is Python's [==] on them
      (a bool compares as the integer 0 or 1) and [truthy] its truth test.
    - A dict with string keys is a [gmap string value]: [d !! k] is
      [d.get(k)] with [None] for a miss, and [d[k]] raises [KeyError k]
      on a miss.
    - A list is a [list]; the lists and dicts the code mutates in place are
      threaded through explicitly, and a function that raises returns the
      objects as they are at the raise, since the caller keeps seeing them.
    - [time.time()] is an integer number of clock ticks, read once for each
      message taken from the queue; the string [time.strftime] produces is
      passed in as [stamp].
    - A string is a sequence of characters with code points below 256.
    - The one float of the code, [PROCESSED_VAL_MAX / 2], is an integer
      quotient read back with [int]: [half] gives the integer the correctly
      rounded double holds, and the [OverflowError] of a quotient too large
      for a double.
    Floats, lists and nested objects carried by a message are left out of
    [value]: no function below looks inside them. *)

From stdpp Require Import gmap strings list fin_maps pretty.

Open Scope string_scope.
Open Scope list_scope.
Open Scope Z_scope.

(** ** Python values *)

Inductive value :=
| VNone
| VBool (b : bool)
| VInt (n : Z)
| VStr (s : string).

#[global] Instance value_eq_dec : EqDecision value.
Proof. solve_decision. Defined.

Abbreviation dict := (gmap string value).

(** The numeric reading of a value: [True == 1] and [False == 0]. *)
Definition num_of (x : value) : option Z :=
  match x with
  | VBool b => Some (if b then 1 else 0)
  | VInt n => Some n
  | _ => None
  end.

(** [x == y]. *)
Definition py_eq (x y : value) : bool :=
  match x, y with
  | VNone, VNone => true
  | VStr s, VStr t => bool_decide (s = t)
  | _, _ =>
      match num_of x, num_of y with
      | Some a, Some b => bool_decide (a = b)
      | _, _ => false
      end
  end.

(** [bool(x)]. *)
Definition truthy (x : value) : bool :=
  match x with
  | VNone => false
  | VBool b => b
  | VInt n => negb (bool_decide (n = 0))
  | VStr s => negb (bool_decide (s = ""))
  end.

(** [x in l] for a list [l]. *)
Definition py_in (x : value) (l : list value) : bool :=
  existsb (py_eq x) l.

(** [d.get(k)]. *)
Definition get (d : dict) (k : string) : value :=
  default VNone (d !! k).

(** ** Exceptions *)

Inductive exn :=
| KeyError (k : string)
| IndexError
| CancelledError
| KeyboardInterrupt
| OtherException (name : string)
| SystemExit.

#[global] Instance exn_eq_dec : EqDecision exn.
Proof. solve_decision. Defined.

(** [isinstance(e, Exception)]: [CancelledError], [KeyboardInterrupt] and
    [SystemExit] derive from [BaseException] only. *)
Definition is_Exception (e : exn) : bool :=
  match e with
  | KeyError _ | IndexError | OtherException _ => true
  | CancelledError | KeyboardInterrupt | SystemExit => false
  end.

(** Whether a call raised [KeyError]. *)
Definition raises_KeyError (r : option exn) : bool :=
  match r with
  | Some (KeyError _) => true
  | _ => false
  end.

(** [d[k]]. *)
Definition subscript (d : dict) (k : string) : exn + value :=
  match d !! k with
  | Some x => inr x
  | None => inl (KeyError k)
  end.

(** ** Messages and settings *)

(** An inbound message: a dict with the keys [data] and [server_url], either
    of which may be missing. *)
Record message := Message {
  msg_data : option dict;
  msg_server_url : option value;
}.

Record settings := Settings {
  PROCESSED_VAL_MAX : Z;
  REMOVE_DUP_VALIDATORS : bool;
  FORK_CHECK_FREQ : Z;
  CONSOLE_OUT : bool;
  CONSOLE_REFRESH_TIME : Z;
  ADMIN_HEARTBEAT : bool;
  HEARTBEAT_INTERVAL : Z;
  ADMIN_NOTIFICATIONS : list string;
}.

(** ** process_validation_output.py *)

Module Validation.

(** The three objects the validation handler receives and returns. *)
Record vstate := VState {
  val_keys : list value;
  table_validator : list dict;
  processed_validations : list value;
}.

(** *** del_dup_validators *)

(** The loop of [del_dup_validators], run from given accumulators. *)
Fixpoint del_dup_loop (val_keys : list value) (table_new : list dict)
    (table : list dict) : list value * list dict :=
  match table with
  | [] => (val_keys, table_new)
  | validator :: rest =>
      let master_key := get validator "master_key" in
      if negb (py_in master_key val_keys)
      then del_dup_loop (val_keys ++ [master_key]) (table_new ++ [validator]) rest
      else del_dup_loop val_keys table_new rest
  end.

Definition del_dup_validators (table : list dict) : list value * list dict :=
  del_dup_loop [] [] table.

(** *** clean_validations *)

(** [del l[0:k]]: a negative [k] counts from the end of the list. *)
Definition del_prefix {A} (k : Z) (l : list A) : list A :=
  if bool_decide (0 ≤ k) then drop (Z.to_nat k) l
  else drop (Z.to_nat (Z.of_nat (length l) + k)) l.

(** The multiple of [u] nearest to [a], the even multiple at a tie
    ([0 ≤ a], [0 < u]). *)
Definition round_half_even (a u : Z) : Z :=
  let q := a / u in
  let r := a mod u in
  if bool_decide (2 * r < u) then q * u
  else if bool_decide (u < 2 * r) then (q + 1) * u
  else if Z.even q then q * u
  else (q + 1) * u.

(** [int(n / 2)].  [n / 2] is the true quotient as a double, correctly
    rounded: it is exact while [n] is below 2^53 in magnitude, and [int]
    then truncates it toward zero; above, [n] is rounded to 53 significant
    bits before it is halved; a quotient that rounds to 2^1024 or more
    raises [OverflowError]. *)
Definition half (n : Z) : exn + Z :=
  let a := Z.abs n in
  if bool_decide (a < 2 ^ 53) then inr (Z.quot n 2)
  else
    let r := round_half_even a (2 ^ (Z.log2 a - 52)) in
    if bool_decide (2 ^ 1025 ≤ r) then inl (OtherException "OverflowError")
    else inr (Z.sgn n * (r / 2)).

Definition clean_validations (cfg : settings) (s : vstate) : vstate * option exn :=
  if bool_decide (PROCESSED_VAL_MAX cfg ≤ Z.of_nat (length (processed_validations s)))
  then
    match half (PROCESSED_VAL_MAX cfg) with
    | inl e => (s, Some e)
    | inr half_list =>
        let log := del_prefix half_list (processed_validations s) in
        if REMOVE_DUP_VALIDATORS cfg
        then
          let '(keys, table) := del_dup_validators (table_validator s) in
          (VState keys table log, None)
        else (VState (val_keys s) (table_validator s) log, None)
    end
  else (s, None).

(** *** update_table_validator *)

(** The test of line 133: [mk and mk == validator['master_key'] or
    vpk == validator['validation_public_key']], with Python's short
    circuits: a subscript is evaluated only when the test reaches it. *)
Definition matches (data validator : dict) : exn + bool :=
  let by_vpk :=
    match subscript validator "validation_public_key" with
    | inl e => inl e
    | inr k => inr (py_eq (get data "validation_public_key") k)
    end in
  if truthy (get data "master_key") then
    match subscript validator "master_key" with
    | inl e => inl e
    | inr k => if py_eq (get data "master_key") k then inr true else by_vpk
    end
  else by_vpk.

(** The inner loop: every key of the record that the message carries is
    overwritten. *)
Definition overwrite (data validator : dict) : dict :=
  map_fold
    (fun key _ acc =>
       match data !! key with
       | Some x => <[key := x]> acc
       | None => acc
       end)
    validator validator.

Definition update_validator (data : dict) (stamp : string) (validator : dict) : dict :=
  <["time_updated" := VStr stamp]> (overwrite data validator).

(** The loop over the table.  A [KeyError] stops it and leaves the records
    before the failing one updated. *)
Fixpoint update_loop (data : dict) (stamp : string) (table : list dict)
    : list dict * option exn :=
  match table with
  | [] => ([], None)
  | validator :: rest =>
      match matches data validator with
      | inl e => (validator :: rest, Some e)
      | inr hit =>
          let validator' :=
            if hit then update_validator data stamp validator else validator in
          let '(rest', r) := update_loop data stamp rest in
          (validator' :: rest', r)
      end
  end.

Definition update_table_validator (table : list dict) (m : message)
    (stamp : string) : list dict * option exn :=
  match msg_data m with
  | None => (table, Some (KeyError "data"))
  | Some data => update_loop data stamp table
  end.

(** *** process_validations *)

Definition process_validations (cfg : settings) (s : vstate) (m : message)
    (stamp : string) : vstate * option exn :=
  match msg_server_url m with
  | None => (s, Some (KeyError "server_url"))
  | Some _ =>
      match update_table_validator (table_validator s) m stamp with
      | (table, Some e) =>
          (VState (val_keys s) table (processed_validations s), Some e)
      | (table, None) =>
          match msg_data m with
          | None => (VState (val_keys s) table (processed_validations s),
                     Some (KeyError "data"))
          | Some data =>
              match subscript data "signature" with
              | inl e => (VState (val_keys s) table (processed_validations s), Some e)
              | inr sig =>
                  let s1 := VState (val_keys s) table
                                   (processed_validations s ++ [sig]) in
                  clean_validations cfg s1
              end
          end
      end
  end.

(** *** check_validations *)

(** The test of line 181: [mk in val_keys or vpk in val_keys and vpk];
    [and] binds tighter than [or]. *)
Definition in_scope (keys : list value) (data : dict) : bool :=
  py_in (get data "master_key") keys
  || (py_in (get data "validation_public_key") keys
      && truthy (get data "validation_public_key")).

Definition check_validations (cfg : settings) (s : vstate) (m : message)
    (stamp : string) : vstate * option exn :=
  match msg_data m with
  | None => (s, Some (KeyError "data"))
  | Some data =>
      if in_scope (val_keys s) data then
        match subscript data "signature" with
        | inl e => (s, Some e)
        | inr sig =>
            if negb (py_in sig (processed_validations s))
            then process_validations cfg s m stamp
            else (s, None)
        end
      else
        match msg_server_url m with
        | None => (s, Some (KeyError "server_url"))
        | Some _ => (s, None)
        end
  end.

(** The handler fed a sequence of messages: the states after each one.  A
    message that raises leaves the state it reached, as in the processor
    loop, which logs the error and takes the next message. *)
Fixpoint feed (cfg : settings) (s : vstate) (ms : list (message * string))
    : list vstate :=
  match ms with
  | [] => []
  | (m, stamp) :: rest =>
      let s' := fst (check_validations cfg s m stamp) in
      s' :: feed cfg s' rest
  end.

End Validation.

(** ** process_output.py *)

(** An outbound notification: [{'message': ..., 'server': ...}]. *)
Record notification := Notification {
  n_message : string;
  n_server : string;
}.

Inductive level := WARNING | CRITICAL.

(** The log records of the processor that the development observes. *)
Inductive log_text :=
| UnexpectedMessage (error : exn) (m : message)
| Interrupted
| Uncaught (error : exn)
| Heartbeat (text : string).

(** What the processor does to the outside: the handler it hands a message
    to, the calls of the fork checker and of the console, its log records. *)
Inductive event :=
| EUpdateTableServer (m : message)
| EUpdateTableLedger (m : message)
| ECheckValidations (m : message)
| EForkChecker
| EClear
| EPrintTableServer
| EPrintTableValidation
| ELog (lvl : level) (text : log_text).

#[global] Instance message_eq_dec : EqDecision message.
Proof. solve_decision. Defined.
#[global] Instance level_eq_dec : EqDecision level.
Proof. solve_decision. Defined.
#[global] Instance log_text_eq_dec : EqDecision log_text.
Proof. solve_decision. Defined.
#[global] Instance event_eq_dec : EqDecision event.
Proof. solve_decision. Defined.

(** The collaborators of the processor that live outside these two files:
    the server and ledger handlers and the server table printer of
    [process_stock_output], the fork checker of [check_forked],
    [decode_version] of [xrpl_version_decoder], and the formatting of times
    and values.  A collaborator that raises reports the objects it was
    handed as they are at the raise. *)
Class Collaborators := {
  server_value : Type;
  update_table_server :
    list (gmap string server_value) → list notification → message →
    list (gmap string server_value) * list notification * option exn;
  update_table_ledger :
    list (gmap string server_value) → message →
    list (gmap string server_value) * option exn;
  fork_checker :
    settings → list (gmap string server_value) → list dict → list notification →
    list notification *
    (exn + list value * list (gmap string server_value) * list dict);
  print_table_server : list (gmap string server_value) → option exn;
  decode_version : string → exn + dict;
  strftime_local : Z → string;
  strftime_gmt : Z → string;
  str : value → string;
}.

(** ** process_validation_output.py: the validation table on the console *)

Module Rendering.
Section Rendering.
Context `{Collaborators}.

(** The escape character and the three colour codes. *)
Definition esc : string := String (Ascii.ascii_of_nat 27) "".
Definition color_reset : string := esc +:+ "[0;0m".
Definition green : string := esc +:+ "[0;32m".
Definition red : string := esc +:+ "[1;31m".

(** [str(x)]. *)
Definition py_str (x : value) : string :=
  match x with
  | VNone => "None"
  | VBool true => "True"
  | VBool false => "False"
  | VInt n => pretty n
  | VStr s => s
  end.

(** [c.isdigit()] for a character below 256: the decimal digits and the
    superscripts one, two and three. *)
Definition is_digit_char (c : Ascii.ascii) : bool :=
  let n := Ascii.nat_of_ascii c in
  ((48 <=? n)%nat && (n <=? 57)%nat)
  || (n =? 178)%nat || (n =? 179)%nat || (n =? 185)%nat.

Fixpoint all_digits (s : string) : bool :=
  match s with
  | EmptyString => true
  | String c rest => is_digit_char c && all_digits rest
  end.

(** [s.isdigit()]: false for the empty string. *)
Definition isdigit (s : string) : bool :=
  match s with
  | EmptyString => false
  | String _ _ => all_digits s
  end.

(** [if isinstance(validator[key], str): validator[key] = validator[key][:5]]. *)
Definition shorten (key : string) (validator : dict) : exn + dict :=
  match validator !! key with
  | None => inl (KeyError key)
  | Some (VStr s) => inr (<[key := VStr (String.substring 0 5 s)]> validator)
  | Some _ => inr validator
  end.

(** Lines 31-34: [forked] is shown green when it is [False] itself. *)
Definition color_forked (validator : dict) : exn + dict :=
  match validator !! "forked" with
  | None => inl (KeyError "forked")
  | Some x =>
      let color := match x with VBool false => green | _ => red end in
      inr (<["forked" := VStr (color +:+ py_str x +:+ color_reset)]> validator)
  end.

(** Lines 35-38: [full] is shown green when it is true. *)
Definition color_full (validator : dict) : exn + dict :=
  match validator !! "full" with
  | None => inl (KeyError "full")
  | Some x =>
      let color := if truthy x then green else red in
      inr (<["full" := VStr (color +:+ py_str x +:+ color_reset)]> validator)
  end.

(** Lines 39-42: a [server_version] made of digits is decoded. *)
Definition show_version (validator : dict) : exn + dict :=
  match validator !! "server_version" with
  | None => inl (KeyError "server_version")
  | Some (VStr s) =>
      if isdigit s then
        match decode_version s with
        | inl e => inl e
        | inr server_version =>
            inr (<["server_version" := get server_version "version"]> validator)
        end
      else inr validator
  | Some _ => inr validator
  end.

(** One step after another, stopping at the first raise. *)
Definition then_do {A B C} (f : A → exn + B) (g : B → exn + C) (x : A) : exn + C :=
  match f x with
  | inl e => inl e
  | inr y => g y
  end.

(** The body of the loop of [format_table_validation]. *)
Definition format_validator : dict → exn + dict :=
  then_do (shorten "master_key")
    (then_do (shorten "validation_public_key")
       (then_do (shorten "ledger_hash")
          (then_do (shorten "validated_hash")
             (then_do color_forked (then_do color_full show_version))))).

(** [f] on each element in turn, stopping at the first raise. *)
Fixpoint for_each {A B} (f : A → exn + B) (l : list A) : exn + list B :=
  match l with
  | [] => inr []
  | x :: rest =>
      match f x with
      | inl e => inl e
      | inr y =>
          match for_each f rest with
          | inl e => inl e
          | inr ys => inr (y :: ys)
          end
      end
  end.

Definition format_table_validation (table : list dict) : exn + list dict :=
  for_each format_validator table.

(** The columns of a row, in the order of lines 62-72. *)
Definition columns : list string :=
  ["server_name"; "master_key"; "validation_public_key"; "server_version";
   "base_fee"; "load_fee"; "ledger_hash"; "ledger_index"; "full"; "forked";
   "time_updated"].

(** [print_table_validation]: the rows handed to the table printer.  The
    table is formatted on a deep copy, so the records themselves are never
    changed; the printer of [prettytable] is taken to return. *)
Definition print_table_validation (table : list dict) : exn + list (list value) :=
  match format_table_validation table with
  | inl e => inl e
  | inr table_new => for_each (fun validator => for_each (subscript validator) columns) table_new
  end.

End Rendering.
End Rendering.

Module Processor.
Section Processor.
Context `{Collaborators}.

Abbreviation server := (gmap string server_value).

(** The attributes of a [ResponseProcessor], with the outbound queue as the
    list of notifications put so far and [trace] as the events so far. *)
Record processor := Build {
  table_stock : list server;
  table_validator : list dict;
  ll_modes : list value;
  val_keys : list value;
  processed_validations : list value;
  notification_queue : list notification;
  time_last_output : Z;
  time_fork_check : Z;
  last_heartbeat : Z;
  trace : list event;
}.

(** [__init__] at clock reading [now]. *)
Definition init (now : Z) : processor :=
  Build [] [] [] [] [] [] 0 0 now [].

Definition set_table_stock (x : list server) (p : processor) : processor :=
  Build x (table_validator p) (ll_modes p) (val_keys p) (processed_validations p)
    (notification_queue p) (time_last_output p) (time_fork_check p)
    (last_heartbeat p) (trace p).
Definition set_table_validator (x : list dict) (p : processor) : processor :=
  Build (table_stock p) x (ll_modes p) (val_keys p) (processed_validations p)
    (notification_queue p) (time_last_output p) (time_fork_check p)
    (last_heartbeat p) (trace p).
Definition set_ll_modes (x : list value) (p : processor) : processor :=
  Build (table_stock p) (table_validator p) x (val_keys p) (processed_validations p)
    (notification_queue p) (time_last_output p) (time_fork_check p)
    (last_heartbeat p) (trace p).
Definition set_val_keys (x : list value) (p : processor) : processor :=
  Build (table_stock p) (table_validator p) (ll_modes p) x (processed_validations p)
    (notification_queue p) (time_last_output p) (time_fork_check p)
    (last_heartbeat p) (trace p).
Definition set_processed_validations (x : list value) (p : processor) : processor :=
  Build (table_stock p) (table_validator p) (ll_modes p) (val_keys p) x
    (notification_queue p) (time_last_output p) (time_fork_check p)
    (last_heartbeat p) (trace p).
Definition set_notification_queue (x : list notification) (p : processor) : processor :=
  Build (table_stock p) (table_validator p) (ll_modes p) (val_keys p)
    (processed_validations p) x (time_last_output p) (time_fork_check p)
    (last_heartbeat p) (trace p).
Definition set_time_last_output (x : Z) (p : processor) : processor :=
  Build (table_stock p) (table_validator p) (ll_modes p) (val_keys p)
    (processed_validations p) (notification_queue p) x (time_fork_check p)
    (last_heartbeat p) (trace p).
Definition set_time_fork_check (x : Z) (p : processor) : processor :=
  Build (table_stock p) (table_validator p) (ll_modes p) (val_keys p)
    (processed_validations p) (notification_queue p) (time_last_output p) x
    (last_heartbeat p) (trace p).
Definition set_last_heartbeat (x : Z) (p : processor) : processor :=
  Build (table_stock p) (table_validator p) (ll_modes p) (val_keys p)
    (processed_validations p) (notification_queue p) (time_last_output p)
    (time_fork_check p) x (trace p).
(** Record one more event. *)
Definition emit (e : event) (p : processor) : processor :=
  Build (table_stock p) (table_validator p) (ll_modes p) (val_keys p)
    (processed_validations p) (notification_queue p) (time_last_output p)
    (time_fork_check p) (last_heartbeat p) (trace p ++ [e]).

(** A method of the processor: it leaves the attributes in some state and
    either returns or raises. *)
Definition method := processor → processor * option exn.

(** [f] then [g]; a raise in [f] skips [g]. *)
Definition and_then (f g : method) : method :=
  fun self =>
    match f self with
    | (self', None) => g self'
    | (self', Some e) => (self', Some e)
    end.

Infix ">>" := and_then (at level 62, right associativity).

(** *** The periodic triggers *)

Definition process_console_output (cfg : settings) (now : Z) : method :=
  fun self =>
    if CONSOLE_OUT cfg
       && bool_decide (CONSOLE_REFRESH_TIME cfg ≤ now - time_last_output self)
    then
      let self := emit EClear self in
      let self := emit EPrintTableServer self in
      match print_table_server (table_stock self) with
      | Some e => (self, Some e)
      | None =>
          let printed :=
            match table_validator self with
            | [] => (self, None)
            | _ :: _ =>
                (emit EPrintTableValidation self,
                 match Rendering.print_table_validation (table_validator self) with
                 | inl e => Some e
                 | inr _ => None
                 end)
            end in
          match printed with
          | (self, Some e) => (self, Some e)
          | (self, None) => (set_time_last_output now self, None)
          end
      end
    else (self, None).

Definition evaluate_forks (cfg : settings) (now : Z) : method :=
  fun self =>
    if bool_decide (FORK_CHECK_FREQ cfg < now - time_fork_check self)
    then
      let self := emit EForkChecker self in
      match fork_checker cfg (table_stock self) (table_validator self)
                         (notification_queue self) with
      | (queue, inl e) => (set_notification_queue queue self, Some e)
      | (queue, inr (modes, stock, validators)) =>
          (set_time_fork_check now
             (set_table_validator validators
                (set_table_stock stock
                   (set_ll_modes modes
                      (set_notification_queue queue self)))),
           None)
      end
    else (self, None).

(** The text of the heartbeat for network mode [mode] at [now]. *)
Definition heartbeat_text (mode : value) (now : Z) : string :=
  ("XRPL Livenet Monitor bot heartbeat. "
     +:+ ("LL mode: " +:+ str mode +:+ ". "))
    +:+ ("Server time (UTC): " +:+ strftime_gmt now +:+ ".").

Definition heartbeat_message (cfg : settings) (now : Z) : method :=
  fun self =>
    if ADMIN_HEARTBEAT cfg
       && bool_decide (HEARTBEAT_INTERVAL cfg ≤ now - last_heartbeat self)
    then
      match ll_modes self with
      | [] => (self, Some IndexError)
      | mode :: _ =>
          let text := heartbeat_text mode now in
          let self := emit (ELog WARNING (Heartbeat text)) self in
          let queue :=
            (notification_queue self
               ++ map (Notification text) (ADMIN_NOTIFICATIONS cfg)) in
          (set_last_heartbeat now (set_notification_queue queue self), None)
      end
    else (self, None).

(** *** sort_new_messages *)

Definition validation_state (self : processor) : Validation.vstate :=
  Validation.VState (val_keys self) (table_validator self)
                    (processed_validations self).

Definition set_validation_state (s : Validation.vstate) (self : processor) : processor :=
  set_processed_validations (Validation.processed_validations s)
    (set_table_validator (Validation.table_validator s)
       (set_val_keys (Validation.val_keys s) self)).

Definition sort_new_messages (cfg : settings) (now : Z) (m : message) : method :=
  fun self =>
    match msg_data m with
    | None => (self, Some (KeyError "data"))
    | Some data =>
        if bool_decide ("result" ∈ dom data) then
          let self := emit (EUpdateTableServer m) self in
          let '(stock, queue, r) :=
            update_table_server (table_stock self) (notification_queue self) m in
          (set_notification_queue queue (set_table_stock stock self), r)
        else
          match subscript data "type" with
          | inl e => (self, Some e)
          | inr type =>
              if py_eq type (VStr "ledgerClosed") then
                let self := emit (EUpdateTableLedger m) self in
                let '(stock, r) := update_table_ledger (table_stock self) m in
                (set_table_stock stock self, r)
              else if py_eq type (VStr "validationReceived") then
                let self := emit (ECheckValidations m) self in
                let '(s, r) :=
                  Validation.check_validations cfg (validation_state self) m
                    (strftime_local now) in
                (set_validation_state s self, r)
              else (self, None)
          end
    end.

(** *** process_messages *)

(** [generate_table_stock]. *)
Definition generate_table_stock (table_stock : list server) : method :=
  fun self =>
    (set_table_stock (map (delete "ws_connection_task") table_stock) self, None).

(** [generate_val_keys]. *)
Definition generate_val_keys : method :=
  fun self =>
    let keys :=
      (map (fun i => get i "master_key") (table_validator self)
         ++ map (fun i => get i "validation_public_key") (table_validator self)) in
    (set_val_keys (val_keys self ++ filter (fun i => truthy i = true) keys) self,
     None).

Definition setup (table_stock : list server) (table_validator : list dict) : method :=
  generate_table_stock table_stock
  >> (fun self => (set_table_validator table_validator self, None))
  >> generate_val_keys.

(** What [message_queue.get()] delivers: a message, read at clock reading
    [now], or the exception that ends the wait. *)
Inductive arrival :=
| Arrive (now : Z) (m : message)
| Cancel
| CtrlC.

(** The [try] block for one message.  Every reading of the clock while one
    message is processed is [now]. *)
Definition body (cfg : settings) (now : Z) (m : message) : method :=
  sort_new_messages cfg now m
  >> evaluate_forks cfg now
  >> process_console_output cfg now
  >> heartbeat_message cfg now.

Inductive status :=
| Running
| Stopped
| Propagated (e : exn).

(** The [except] clauses, for the exception [e] raised while [m] (if any)
    was in hand. *)
Definition handle (m : option message) (e : exn) (self : processor)
    : processor * status :=
  match e with
  | KeyError _ =>
      match m with
      | Some m => (emit (ELog WARNING (UnexpectedMessage e m)) self, Running)
      | None => (self, Propagated (OtherException "UnboundLocalError"))
      end
  | CancelledError | KeyboardInterrupt =>
      (emit (ELog CRITICAL Interrupted) self, Stopped)
  | IndexError | OtherException _ =>
      (emit (ELog CRITICAL (Uncaught e)) self, Running)
  | SystemExit => (self, Propagated e)
  end.

(** One turn of the [while True] loop. *)
Definition iteration (cfg : settings) (self : processor) (a : arrival)
    : processor * status :=
  match a with
  | Arrive now m =>
      match body cfg now m self with
      | (self', None) => (self', Running)
      | (self', Some e) => handle (Some m) e self'
      end
  | Cancel => handle None CancelledError self
  | CtrlC => handle None KeyboardInterrupt self
  end.

(** The loop over the arrivals of a finite prefix of the run. *)
Fixpoint loop (cfg : settings) (self : processor) (arrivals : list arrival)
    : processor * status :=
  match arrivals with
  | [] => (self, Running)
  | a :: rest =>
      match iteration cfg self a with
      | (self', Running) => loop cfg self' rest
      | stopped => stopped
      end
  end.

(** The number of heartbeats a trace records. *)
Definition is_heartbeat (e : event) : bool :=
  match e with
  | ELog WARNING (Heartbeat _) => true
  | _ => false
  end.

Definition heartbeats (tr : list event) : nat :=
  length (filter (fun e => is_heartbeat e = true) tr).

End Processor.
End Processor.

(** ** Fixtures: rosters, settings and messages of the examples below *)

Module Fixtures.
Import Validation.

Definition record (master_key validation_public_key : value) (ledger_index : Z) : dict :=
  list_to_map
    [("server_name", VStr "validator");
     ("master_key", master_key);
     ("validation_public_key", validation_public_key);
     ("ledger_index", VInt ledger_index);
     ("time_updated", VNone)].

Definition validation (fields : list (string * value)) : message :=
  Message (Some (list_to_map (("type", VStr "validationReceived") :: fields)))
          (Some (VStr "wss://s1.example")).

(** A vote of master key [mk] with signature [sig]. *)
Definition vote (mk sig : string) (ledger_index : Z) : message :=
  validation [("master_key", VStr mk); ("signature", VStr sig);
              ("ledger_index", VInt ledger_index)].

Definition config (ceiling : Z) (remove_dup : bool) : settings :=
  Settings ceiling remove_dup 30 true 5 true 60 ["admin-1"; "admin-2"].

(** The roster of the end-to-end scenario: one validator [M1]/[E1]. *)
Definition roster : list dict := [record (VStr "M1") (VStr "E1") 100].

Definition start : vstate := VState [VStr "M1"; VStr "E1"] roster [].

End Fixtures.

Module ProcessorFixtures.
Import Processor Fixtures.

(** Collaborators that never raise: the handlers leave the server table as
    it is and the fork checker reports the network mode [full]. *)
Definition quiet : Collaborators := {|
  server_value := value;
  update_table_server := fun stock queue _ => (stock, queue, None);
  update_table_ledger := fun stock _ => (stock, None);
  fork_checker := fun _ stock validators queue =>
                    (queue, inr ([VStr "full"], stock, validators));
  print_table_server := fun _ => None;
  decode_version := fun s => inr (list_to_map [("version", VStr ("rippled-" +:+ s))]);
  strftime_local := fun _ => "local time";
  strftime_gmt := fun _ => "UTC time";
  str := fun v => match v with VStr s => s | _ => "?" end;
|}.

(** The processor after [setup] on [roster], built at clock reading 0. *)
Definition ready : @processor quiet :=
  fst (@setup quiet [] roster (@init quiet 0)).

(** A record with every field the console table reads. *)
Definition complete_record (master_key validation_public_key : string)
    (ledger_index : Z) : dict :=
  list_to_map
    [("server_name", VStr "validator");
     ("master_key", VStr master_key);
     ("validation_public_key", VStr validation_public_key);
     ("server_version", VStr "1745990400");
     ("base_fee", VInt 10);
     ("load_fee", VInt 256);
     ("ledger_hash", VStr "ABCDEF0123456789");
     ("validated_hash", VStr "ABCDEF0123456789");
     ("ledger_index", VInt ledger_index);
     ("full", VBool true);
     ("forked", VBool false);
     ("time_updated", VNone)].

Definition complete_roster : list dict := [complete_record "M1" "E1" 100].

(** The processor after [setup] on [complete_roster], built at clock
    reading 0. *)
Definition ready_complete : @processor quiet :=
  fst (@setup quiet [] complete_roster (@init quiet 0)).

(** A message of a stream the processor has no handler for. *)
Definition transaction : message :=
  Message (Some (list_to_map [("type", VStr "transaction")]))
          (Some (VStr "wss://s1.example")).

(** A message with neither [result] nor [type]. *)
Definition shapeless : message :=
  Message (Some (list_to_map [("status", VStr "error")]))
          (Some (VStr "wss://s1.example")).

End ProcessorFixtures.

(** * Properties *)

(** ** Values *)

Lemma py_eq_refl (x : value) : py_eq x x = true.
Proof.
  destruct x as [|b|n|s]; simpl; try reflexivity;
    apply bool_decide_eq_true; reflexivity.
Qed.

Lemma py_in_app (x : value) (l1 l2 : list value) :
  py_in x (l1 ++ l2) = py_in x l1 || py_in x l2.
Proof. unfold py_in. apply existsb_app. Qed.

Lemma py_in_last (x : value) (l : list value) : py_in x (l ++ [x]) = true.
Proof.
  rewrite py_in_app. simpl. rewrite py_eq_refl.
  destruct (py_in x l); reflexivity.
Qed.

Lemma py_in_drop_last (x : value) (l : list value) (n : nat) :
  (n < length (l ++ [x]))%nat → py_in x (drop n (l ++ [x])) = true.
Proof.
  rewrite length_app. simpl. intros Hn.
  rewrite drop_app_le by lia. apply py_in_last.
Qed.

(** ** The processed-signature log *)

Module LogFacts.
Import Validation.

(** *** [int(n / 2)] *)

Lemma half_exact (n : Z) : Z.abs n < 2 ^ 53 → half n = inr (Z.quot n 2).
Proof. intros Hn. unfold half. by rewrite bool_decide_eq_true_2. Qed.

Lemma round_half_even_bounds (a u : Z) :
  0 ≤ a → 0 < u →
  a - u < round_half_even a u ≤ a + u ∧ 0 ≤ round_half_even a u.
Proof.
  intros Ha Hu. unfold round_half_even.
  pose proof (Z.div_mod a u ltac:(lia)) as Hdiv.
  pose proof (Z.mod_pos_bound a u Hu) as Hmod.
  assert (Hq : 0 ≤ a / u) by (apply Z.div_pos; lia).
  assert (Hqu : 0 ≤ a / u * u) by (apply Z.mul_nonneg_nonneg; lia).
  rewrite Z.mul_add_distr_r, Z.mul_1_l.
  rewrite (Z.mul_comm u) in Hdiv.
  repeat case_bool_decide; try destruct (Z.even (a / u)); lia.
Qed.

(** The size of the rounding step for an [a] of 2^53 or more. *)
Lemma rounding_step (a : Z) :
  2 ^ 53 ≤ a →
  2 ≤ 2 ^ (Z.log2 a - 52) ∧ 2 ^ (Z.log2 a - 52) * 2 ^ 52 ≤ a.
Proof.
  intros Ha.
  assert (H53 : 0 < 2 ^ 53) by (apply Z.pow_pos_nonneg; lia).
  assert (He : 53 ≤ Z.log2 a).
  { rewrite <- (Z.log2_pow2 53) by lia. apply Z.log2_le_mono. lia. }
  destruct (Z.log2_spec a ltac:(lia)) as [Hlow _].
  split.
  - change 2 with (2 ^ 1) at 1. apply Z.pow_le_mono_r; lia.
  - rewrite <- Z.pow_add_r by lia.
    by replace (Z.log2 a - 52 + 52) with (Z.log2 a) by lia.
Qed.

(** What [half] returns, when it returns: nothing positive for a ceiling
    that is not positive, less than the ceiling for a positive one, and at
    least 1 from a ceiling of 2 on. *)
Lemma half_size (n h : Z) :
  half n = inr h →
  (n ≤ 0 → h ≤ 0) ∧ (1 ≤ n → 0 ≤ h < n) ∧ (2 ≤ n → 1 ≤ h).
Proof.
  unfold half. case_bool_decide as Hsmall.
  - intros [= <-]. split; [|split]; intros Hn.
    + apply Z.quot_le_upper_bound; lia.
    + rewrite Z.quot_div_nonneg by lia.
      pose proof (Z.div_mod n 2 ltac:(lia)). pose proof (Z.mod_pos_bound n 2).
      lia.
    + rewrite Z.quot_div_nonneg by lia. apply Z.div_le_lower_bound; lia.
  - case_bool_decide as Hover; [done|]. intros [= <-].
    assert (Ha : 2 ^ 53 ≤ Z.abs n) by lia.
    destruct (rounding_step (Z.abs n) Ha) as [Hu Hstep].
    assert (H52 : 2 ≤ 2 ^ 52) by (change 2 with (2 ^ 1) at 1;
                                  apply Z.pow_le_mono_r; lia).
    destruct (round_half_even_bounds (Z.abs n) (2 ^ (Z.log2 (Z.abs n) - 52)))
      as [[Hlow Hhigh] Hpos]; [lia | lia |].
    set (u := 2 ^ (Z.log2 (Z.abs n) - 52)) in *.
    set (r := round_half_even (Z.abs n) u) in *.
    assert (Hu2 : 2 * u ≤ Z.abs n) by nia.
    assert (Hr : 0 ≤ r / 2) by (apply Z.div_pos; lia).
    split; [|split]; intros Hn.
    + assert (Z.sgn n = -1) as -> by lia. lia.
    + assert (Z.sgn n = 1) as -> by lia.
      split; [lia|]. rewrite Z.mul_1_l. apply Z.div_lt_upper_bound; lia.
    + assert (Z.sgn n = 1) as -> by lia.
      rewrite Z.mul_1_l. apply Z.div_le_lower_bound; lia.
Qed.

(** [half] returns for every ceiling a double can hold. *)
Lemma half_returns (n : Z) : Z.abs n < 2 ^ 1024 → ∃ h, half n = inr h.
Proof.
  intros Hn. unfold half. case_bool_decide as Hsmall; [eauto|].
  assert (Ha : 2 ^ 53 ≤ Z.abs n) by lia.
  destruct (rounding_step (Z.abs n) Ha) as [Hu Hstep].
  assert (H52 : 2 ≤ 2 ^ 52) by (change 2 with (2 ^ 1) at 1;
                                apply Z.pow_le_mono_r; lia).
  destruct (round_half_even_bounds (Z.abs n) (2 ^ (Z.log2 (Z.abs n) - 52)))
    as [[Hlow Hhigh] Hpos]; [lia | lia |].
  assert (Hdouble : 2 ^ 1025 = 2 * 2 ^ 1024).
  { change 1025 with (1 + 1024). by rewrite Z.pow_add_r by lia. }
  rewrite bool_decide_eq_false_2; [eauto|]. rewrite Hdouble.
  set (u := 2 ^ (Z.log2 (Z.abs n) - 52)) in *. nia.
Qed.

(** *** The log *)

(** The log [clean_validations] leaves. *)
Definition clean_log (cfg : settings) (log : list value) : list value :=
  if bool_decide (PROCESSED_VAL_MAX cfg ≤ Z.of_nat (length log))
  then match half (PROCESSED_VAL_MAX cfg) with
       | inl _ => log
       | inr half_list => del_prefix half_list log
       end
  else log.

Lemma clean_validations_log cfg s :
  processed_validations (fst (clean_validations cfg s))
  = clean_log cfg (processed_validations s).
Proof.
  unfold clean_validations, clean_log.
  case_bool_decide; [|reflexivity].
  destruct (half (PROCESSED_VAL_MAX cfg)) as [e|half_list]; [reflexivity|].
  destruct (REMOVE_DUP_VALIDATORS cfg); [|reflexivity].
  destruct (del_dup_validators (table_validator s)); reflexivity.
Qed.

Lemma del_prefix_nonneg {A} (k : Z) (l : list A) :
  0 ≤ k → del_prefix k l = drop (Z.to_nat k) l.
Proof. intros Hk. unfold del_prefix. rewrite bool_decide_eq_true_2; done. Qed.

(** The newest entry survives every prune, whatever the ceiling. *)
Lemma del_prefix_keeps_last (k : Z) (l : list value) (x : value) :
  k < Z.of_nat (length (l ++ [x])) →
  py_in x (del_prefix k (l ++ [x])) = true.
Proof.
  intros Hk. unfold del_prefix. case_bool_decide.
  - apply py_in_drop_last. lia.
  - apply py_in_drop_last. rewrite length_app in *. simpl in *. lia.
Qed.

Lemma clean_log_keeps_last cfg (l : list value) (x : value) :
  py_in x (clean_log cfg (l ++ [x])) = true.
Proof.
  unfold clean_log. case_bool_decide as Hfull; [|apply py_in_last].
  destruct (half (PROCESSED_VAL_MAX cfg)) as [e|h] eqn:Hhalf; [apply py_in_last|].
  apply del_prefix_keeps_last.
  destruct (half_size _ _ Hhalf) as (Hneg & Hpos & _).
  rewrite length_app in *. simpl in *.
  destruct (Z_le_gt_dec (PROCESSED_VAL_MAX cfg) 0); [specialize (Hneg ltac:(lia))|
                                                      specialize (Hpos ltac:(lia))];
    lia.
Qed.

(** Below the ceiling, one insertion followed by the prune stays below it. *)
Lemma clean_log_below cfg (l : list value) (x : value) :
  2 ≤ PROCESSED_VAL_MAX cfg < 2 ^ 1024 →
  Z.of_nat (length l) < PROCESSED_VAL_MAX cfg →
  Z.of_nat (length (clean_log cfg (l ++ [x]))) < PROCESSED_VAL_MAX cfg.
Proof.
  intros Hmax Hlen. unfold clean_log.
  destruct (half_returns (PROCESSED_VAL_MAX cfg)) as [h Hhalf]; [lia|].
  rewrite Hhalf.
  destruct (half_size _ _ Hhalf) as (_ & Hpos & Hone).
  case_bool_decide as Hfull.
  - rewrite del_prefix_nonneg by lia. rewrite length_drop, length_app. simpl. lia.
  - lia.
Qed.

(** The log after one message: untouched, or extended by the signature and
    cleaned. *)
Lemma check_validations_log cfg s m stamp :
  processed_validations (fst (check_validations cfg s m stamp))
  = processed_validations s
  ∨ ∃ sig, processed_validations (fst (check_validations cfg s m stamp))
           = clean_log cfg (processed_validations s ++ [sig]).
Proof.
  unfold check_validations.
  destruct (msg_data m) as [data|] eqn:Hdata; [|by left].
  destruct (in_scope (val_keys s) data).
  - destruct (subscript data "signature") as [e|sig]; [by left|].
    destruct (negb (py_in sig (processed_validations s))); [|by left].
    unfold process_validations.
    destruct (msg_server_url m); [|by left].
    destruct (update_table_validator (table_validator s) m stamp) as [table [e|]];
      [by left|].
    rewrite Hdata.
    destruct (subscript data "signature") as [e|sig']; [by left|].
    right. exists sig'. apply clean_validations_log.
  - destruct (msg_server_url m); by left.
Qed.

Lemma check_validations_below cfg s m stamp :
  2 ≤ PROCESSED_VAL_MAX cfg < 2 ^ 1024 →
  Z.of_nat (length (processed_validations s)) < PROCESSED_VAL_MAX cfg →
  Z.of_nat (length (processed_validations (fst (check_validations cfg s m stamp))))
  < PROCESSED_VAL_MAX cfg.
Proof.
  intros Hmax Hlen.
  destruct (check_validations_log cfg s m stamp) as [-> | [sig ->]]; [done|].
  by apply clean_log_below.
Qed.

Lemma feed_below cfg ms : ∀ s,
  2 ≤ PROCESSED_VAL_MAX cfg < 2 ^ 1024 →
  Z.of_nat (length (processed_validations s)) < PROCESSED_VAL_MAX cfg →
  Forall (fun s' => Z.of_nat (length (processed_validations s'))
                    < PROCESSED_VAL_MAX cfg)
         (feed cfg s ms).
Proof.
  induction ms as [|[m stamp] ms IH]; intros s Hmax Hlen; simpl.
  - constructor.
  - pose proof (check_validations_below cfg s m stamp Hmax Hlen) as Hstep.
    constructor; [exact Hstep|]. by apply IH.
Qed.

(** A message that is in scope, carries a new signature and is processed
    without a raise extends the log and cleans it. *)
Lemma check_validations_inserts cfg s m stamp data sig :
  msg_data m = Some data →
  in_scope (val_keys s) data = true →
  data !! "signature" = Some sig →
  py_in sig (processed_validations s) = false →
  snd (check_validations cfg s m stamp) = None →
  processed_validations (fst (check_validations cfg s m stamp))
  = clean_log cfg (processed_validations s ++ [sig]).
Proof.
  intros Hdata Hscope Hsig Hnew.
  unfold check_validations, process_validations, subscript.
  rewrite Hdata, Hscope, Hsig, Hnew. simpl.
  destruct (msg_server_url m); [|discriminate].
  destruct (update_table_validator (table_validator s) m stamp) as [table [e|]];
    [discriminate|].
  intros _. apply clean_validations_log.
Qed.

End LogFacts.

(** ** Merging a message into the table *)

Module MergeFacts.
Import Validation.

(** A record with both identity fields, as the roster supplies them; the
    value of an absent key is [None]. *)
Definition tracked (validator : dict) : Prop :=
  is_Some (validator !! "master_key")
  ∧ is_Some (validator !! "validation_public_key").

Lemma lookup_overwrite (data validator : dict) (k : string) :
  overwrite data validator !! k
  = match validator !! k with
    | Some x => Some (default x (data !! k))
    | None => None
    end.
Proof.
  unfold overwrite.
  set (f := fun (key : string) (_ : value) (acc : dict) =>
              match data !! key with
              | Some x => <[key := x]> acc
              | None => acc
              end).
  assert (Hgen : ∀ (b m : dict),
             map_fold f b m !! k
             = match m !! k with
               | Some _ => match data !! k with
                           | Some y => Some y
                           | None => b !! k
                           end
               | None => b !! k
               end).
  { intros b m.
    apply (map_fold_weak_ind
             (fun r m' => r !! k = match m' !! k with
                                   | Some _ => match data !! k with
                                               | Some y => Some y
                                               | None => b !! k
                                               end
                                   | None => b !! k
                                   end) f b).
    - by rewrite lookup_empty.
    - intros i x m' r Hfresh IH. unfold f.
      destruct (decide (i = k)) as [->|Hne].
      + rewrite lookup_insert_eq. rewrite Hfresh in IH.
        destruct (data !! k); [by rewrite lookup_insert_eq | exact IH].
      + rewrite (lookup_insert_ne m') by done.
        destruct (data !! i); [by rewrite lookup_insert_ne | exact IH]. }
  rewrite Hgen. destruct (validator !! k) as [x|] eqn:Hk; [|done].
  by destruct (data !! k).
Qed.

Lemma overwrite_tracked data validator :
  tracked validator → tracked (overwrite data validator).
Proof.
  intros [[x Hx] [y Hy]]. split; rewrite lookup_overwrite.
  - rewrite Hx. eauto.
  - rewrite Hy. eauto.
Qed.

Lemma update_validator_tracked data stamp validator :
  tracked validator → tracked (update_validator data stamp validator).
Proof.
  intros Hv. destruct (overwrite_tracked data validator Hv) as [Hm Hk].
  unfold update_validator. split; by rewrite lookup_insert_ne.
Qed.

(** On a record with both identity fields the test raises nothing. *)
Lemma matches_tracked data validator :
  tracked validator → ∃ hit, matches data validator = inr hit.
Proof.
  intros [[x Hx] [y Hy]]. unfold matches, subscript. rewrite Hx, Hy.
  destruct (truthy (get data "master_key")); [|eauto].
  destruct (py_eq (get data "master_key") x); eauto.
Qed.

Lemma update_loop_length data stamp table :
  length (fst (update_loop data stamp table)) = length table.
Proof.
  induction table as [|v table IH]; simpl; [done|].
  destruct (matches data v) as [e|hit]; [done|].
  destruct (update_loop data stamp table) as [rest r]. simpl in *. by rewrite IH.
Qed.

(** When the loop ends without a raise, every record was tested, and was
    merged exactly when the test held. *)
Lemma update_loop_lookup data stamp table : ∀ (i : nat) (v : dict),
  snd (update_loop data stamp table) = None →
  table !! i = Some v →
  ∃ hit, matches data v = inr hit
         ∧ fst (update_loop data stamp table) !! i
           = Some (if hit then update_validator data stamp v else v).
Proof.
  induction table as [|w table IH]; intros i v Hret Hi; [done|].
  simpl in Hret |- *.
  destruct (matches data w) as [e|hit] eqn:Hw; [done|].
  destruct (update_loop data stamp table) as [rest r] eqn:Hrest.
  simpl in Hret. subst r.
  destruct i as [|i]; simpl in Hi |- *.
  - injection Hi as ->. eauto.
  - apply (IH i v); [done | exact Hi].
Qed.

(** Totality on well-formed tables: no record raises, and the table stays
    well formed. *)
Lemma update_loop_tracked data stamp table :
  Forall tracked table →
  snd (update_loop data stamp table) = None
  ∧ Forall tracked (fst (update_loop data stamp table)).
Proof.
  induction 1 as [|v table Hv Htable [IHr IHt]]; simpl; [by split|].
  destruct (matches_tracked data v Hv) as [hit ->].
  destruct (update_loop data stamp table) as [rest r]. simpl in *.
  split; [done|]. constructor; [|done].
  destruct hit; [by apply update_validator_tracked | done].
Qed.

(** The loop raises nothing but the [KeyError] of a record that lacks an
    identity field. *)
Lemma update_loop_raises data stamp table e :
  snd (update_loop data stamp table) = Some e →
  e = KeyError "master_key" ∨ e = KeyError "validation_public_key".
Proof.
  induction table as [|v table IH]; simpl; [done|].
  destruct (matches data v) as [e'|hit] eqn:Hv.
  - simpl. intros [= <-]. revert Hv. unfold matches, subscript.
    destruct (v !! "validation_public_key"), (v !! "master_key");
      destruct (truthy (get data "master_key")); simpl;
      try destruct (py_eq (get data "master_key") _); intros [=]; auto.
  - destruct (update_loop data stamp table) as [rest r]. simpl in *. exact IH.
Qed.

End MergeFacts.

(** ** The validation stream handler *)

Module HandlerFacts.
Import Validation LogFacts MergeFacts Fixtures.

(** A message whose signature is already in the log changes nothing. *)
Lemma check_validations_seen cfg s m stamp data sig :
  msg_data m = Some data →
  data !! "signature" = Some sig →
  py_in sig (processed_validations s) = true →
  fst (check_validations cfg s m stamp) = s
  ∧ (is_Some (msg_server_url m) → check_validations cfg s m stamp = (s, None)).
Proof.
  intros Hdata Hsig Hseen. unfold check_validations, subscript.
  rewrite Hdata, Hsig, Hseen. simpl.
  destruct (in_scope (val_keys s) data); [done|].
  destruct (msg_server_url m); [done|]. split; [done|]. by intros [? ?].
Qed.

(** What the first application of an in-scope message with a new signature
    is, unless it raises [KeyError]: the message has its origin, the update
    has run over the whole table, the signature has been appended and the
    log cleaned. *)
Lemma check_validations_new cfg s m stamp data sig :
  msg_data m = Some data →
  in_scope (val_keys s) data = true →
  data !! "signature" = Some sig →
  py_in sig (processed_validations s) = false →
  raises_KeyError (snd (check_validations cfg s m stamp)) = false →
  is_Some (msg_server_url m)
  ∧ snd (update_loop data stamp (table_validator s)) = None
  ∧ check_validations cfg s m stamp
    = clean_validations cfg
        (VState (val_keys s)
                (fst (update_loop data stamp (table_validator s)))
                (processed_validations s ++ [sig])).
Proof.
  intros Hdata Hscope Hsig Hnew. unfold check_validations, subscript.
  rewrite Hdata, Hscope, Hsig, Hnew. simpl.
  unfold process_validations, update_table_validator, subscript.
  rewrite Hdata, Hsig.
  destruct (msg_server_url m) as [url|]; [|done].
  destruct (update_loop data stamp (table_validator s)) as [table [e|]] eqn:Hloop.
  - simpl. intros Hraise.
    destruct (update_loop_raises data stamp (table_validator s) e) as [-> | ->];
      [by rewrite Hloop | done | done].
  - intros _. simpl. eauto.
Qed.

(** X30.  With a ceiling of at least 2 that a double holds exactly and a
    log that starts below it (it starts empty), the log stays below
    [PROCESSED_VAL_MAX] after every message of every sequence; and on the
    message whose insertion brings the length to the ceiling the prune
    fires: the log loses its oldest [PROCESSED_VAL_MAX / 2] entries, which
    leaves at most [PROCESSED_VAL_MAX / 2 + 1]. *)
Theorem bounded_growth cfg s0 ms :
  2 ≤ PROCESSED_VAL_MAX cfg < 2 ^ 53 →
  Z.of_nat (length (processed_validations s0)) < PROCESSED_VAL_MAX cfg →
  Forall (fun s => Z.of_nat (length (processed_validations s))
                   < PROCESSED_VAL_MAX cfg)
         (feed cfg s0 ms)
  ∧ ∀ s m stamp data sig,
      msg_data m = Some data →
      in_scope (val_keys s) data = true →
      data !! "signature" = Some sig →
      py_in sig (processed_validations s) = false →
      snd (check_validations cfg s m stamp) = None →
      Z.of_nat (length (processed_validations s)) + 1 = PROCESSED_VAL_MAX cfg →
      processed_validations (fst (check_validations cfg s m stamp))
      = drop (Z.to_nat (PROCESSED_VAL_MAX cfg / 2)) (processed_validations s ++ [sig])
      ∧ Z.of_nat (length (processed_validations (fst (check_validations cfg s m stamp))))
        ≤ PROCESSED_VAL_MAX cfg / 2 + 1.
Proof.
  intros Hmax Hlen.
  assert (Hwide : 2 ^ 53 < 2 ^ 1024) by (apply Z.pow_lt_mono_r; lia).
  split; [apply feed_below; [lia | done]|].
  intros s m stamp data sig Hdata Hscope Hsig Hnew Hret Hfull.
  rewrite (check_validations_inserts cfg s m stamp data sig) by done.
  unfold clean_log. rewrite bool_decide_eq_true_2
    by (rewrite length_app; simpl; lia).
  rewrite half_exact by lia.
  rewrite Z.quot_div_nonneg by lia.
  assert (Hq : 0 ≤ PROCESSED_VAL_MAX cfg / 2) by (apply Z.div_pos; lia).
  rewrite del_prefix_nonneg by done.
  split; [done|].
  rewrite length_drop, length_app. simpl.
  pose proof (Z.mod_pos_bound (PROCESSED_VAL_MAX cfg) 2).
  pose proof (Z.div_mod (PROCESSED_VAL_MAX cfg) 2). lia.
Qed.

Lemma bounded_growth_witness :
  let cfg := config 4 false in
  let ms := [(vote "M1" "S1" 101, "t1"); (vote "M1" "S2" 102, "t2");
             (vote "M1" "S3" 103, "t3"); (vote "M1" "S4" 104, "t4");
             (vote "M1" "S5" 105, "t5")] in
  Forall (fun s => Z.of_nat (length (processed_validations s)) < 4)
         (feed cfg start ms)
  ∧ map processed_validations (feed cfg start ms)
    = [[VStr "S1"]; [VStr "S1"; VStr "S2"]; [VStr "S1"; VStr "S2"; VStr "S3"];
       [VStr "S3"; VStr "S4"]; [VStr "S3"; VStr "S4"; VStr "S5"]].
Proof.
  split.
  - apply (bounded_growth (config 4 false) start); simpl; lia.
  - vm_compute. reflexivity.
Defined.

(** C1 (divergence).  With a ceiling of 1 the prune fires at every
    insertion and deletes [int(1 / 2) = 0] entries: three votes with
    distinct signatures leave a log of three, each one past the ceiling from
    the second on, and nothing is ever forgotten. *)
Lemma bounded_growth_fails_at_ceiling_1 :
  let cfg := config 1 false in
  let ms := [(vote "M1" "S1" 101, "t1"); (vote "M1" "S2" 102, "t2");
             (vote "M1" "S3" 103, "t3")] in
  NoDup [VStr "S1"; VStr "S2"; VStr "S3"]
  ∧ processed_validations start = []
  ∧ half (PROCESSED_VAL_MAX cfg) = inr 0
  ∧ map processed_validations (feed cfg start ms)
    = [[VStr "S1"]; [VStr "S1"; VStr "S2"]; [VStr "S1"; VStr "S2"; VStr "S3"]]
  ∧ ¬ Forall (fun s => Z.of_nat (length (processed_validations s))
                       ≤ PROCESSED_VAL_MAX cfg)
             (feed cfg start ms).
Proof.
  split; [|split; [|split; [|split]]].
  - apply NoDup_cons. split.
    { rewrite !not_elem_of_cons. repeat split; [discriminate ..|apply not_elem_of_nil]. }
    apply NoDup_cons. split; [|apply NoDup_singleton].
    rewrite list_elem_of_singleton. discriminate.
  - reflexivity.
  - reflexivity.
  - vm_compute. reflexivity.
  - intros Hall. rewrite Forall_lookup in Hall.
    specialize (Hall 1%nat _ eq_refl). vm_compute in Hall.
    apply Hall. reflexivity.
Qed.

(** A record after the merge of [data] at [stamp]: stamped, every field it
    had that the message carries set to the message's value, every other
    field as it was, and no field added. *)
Definition merged (data : dict) (stamp : string) (v v' : dict) : Prop :=
  v' !! "time_updated" = Some (VStr stamp)
  ∧ ∀ k, k ≠ "time_updated" →
         v' !! k = match v !! k with
                   | Some x => Some (default x (data !! k))
                   | None => None
                   end.

Lemma update_validator_merged data stamp v :
  merged data stamp v (update_validator data stamp v).
Proof.
  unfold merged, update_validator. split; [apply lookup_insert_eq|].
  intros k Hk. rewrite lookup_insert_ne by done. apply lookup_overwrite.
Qed.

(** C2 (as amended).  An in-scope message whose first application raises
    no [KeyError] is in the log after it, and applying it again, at any
    time, or any message with its signature, leaves the key set, the table
    and the log as they are.  The first application, when the signature was
    new, is the one mutation: every record the test of line 133 selects is
    merged and stamped, every other record is as it was, and the signature
    is appended before the log is cleaned. *)
Theorem dedup_idempotent cfg s m stamp data sig :
  msg_data m = Some data →
  in_scope (val_keys s) data = true →
  data !! "signature" = Some sig →
  raises_KeyError (snd (check_validations cfg s m stamp)) = false →
  (py_in sig (processed_validations s) = false →
   ∃ table,
     length table = length (table_validator s)
     ∧ (∀ (i : nat) v, table_validator s !! i = Some v →
          ∃ hit v', matches data v = inr hit
                    ∧ table !! i = Some v'
                    ∧ if hit then merged data stamp v v' else v' = v)
     ∧ check_validations cfg s m stamp
       = clean_validations cfg
           (VState (val_keys s) table (processed_validations s ++ [sig])))
  ∧ py_in sig (processed_validations (fst (check_validations cfg s m stamp))) = true
  ∧ (∀ stamp',
       check_validations cfg (fst (check_validations cfg s m stamp)) m stamp'
       = (fst (check_validations cfg s m stamp), None))
  ∧ (∀ m' data' stamp',
       msg_data m' = Some data' →
       data' !! "signature" = Some sig →
       fst (check_validations cfg (fst (check_validations cfg s m stamp)) m' stamp')
       = fst (check_validations cfg s m stamp)).
Proof.
  intros Hdata Hscope Hsig Hraise.
  destruct (py_in sig (processed_validations s)) eqn:Hseen.
  - assert (Hsame : check_validations cfg s m stamp = (s, None)).
    { unfold check_validations, subscript. by rewrite Hdata, Hscope, Hsig, Hseen. }
    rewrite Hsame. simpl. split; [done|]. split; [done|]. split.
    + intros stamp'. unfold check_validations, subscript.
      by rewrite Hdata, Hscope, Hsig, Hseen.
    + intros m' data' stamp' Hdata' Hsig'.
      by apply (check_validations_seen cfg s m' stamp' data' sig).
  - destruct (check_validations_new cfg s m stamp data sig Hdata Hscope Hsig Hseen
                Hraise) as (Hurl & Hloop & Hfirst).
    assert (Hlogged : py_in sig (processed_validations
                                   (fst (check_validations cfg s m stamp))) = true).
    { rewrite Hfirst, clean_validations_log. apply clean_log_keeps_last. }
    split; [|split; [done|split]].
    + intros _. exists (fst (update_loop data stamp (table_validator s))).
      split; [apply update_loop_length|]. split; [|exact Hfirst].
      intros i v Hi.
      destruct (update_loop_lookup data stamp (table_validator s) i v Hloop Hi)
        as (hit & Hhit & Hv').
      exists hit, (if hit then update_validator data stamp v else v).
      split; [done|]. split; [done|].
      destruct hit; [apply update_validator_merged | done].
    + intros stamp'.
      by apply (check_validations_seen cfg _ m stamp' data sig).
    + intros m' data' stamp' Hdata' Hsig'.
      by apply (check_validations_seen cfg _ m' stamp' data' sig).
Qed.

Lemma dedup_idempotent_witness :
  let cfg := config 4 false in
  let m := vote "M1" "S1" 101 in
  let s1 := fst (check_validations cfg start m "t1") in
  map (fun v => (get v "ledger_index", get v "time_updated")) (table_validator start)
  = [(VInt 100, VNone)]
  ∧ map (fun v => (get v "ledger_index", get v "time_updated")) (table_validator s1)
    = [(VInt 101, VStr "t1")]
  ∧ processed_validations s1 = [VStr "S1"]
  ∧ check_validations cfg s1 m "t2" = (s1, None).
Proof.
  split; [vm_compute; reflexivity|].
  split; [vm_compute; reflexivity|].
  split; [vm_compute; reflexivity|].
  refine (proj1 (proj2 (proj2
    (dedup_idempotent (config 4 false) start (vote "M1" "S1" 101) "t1"
       (list_to_map [("type", VStr "validationReceived");
                     ("master_key", VStr "M1"); ("signature", VStr "S1");
                     ("ledger_index", VInt 101)])
       (VStr "S1") _ _ _ _))) "t2").
  - reflexivity.
  - vm_compute. reflexivity.
  - vm_compute. reflexivity.
  - vm_compute. reflexivity.
Defined.

(** C2, as stated, fails when the first application raises in the merge.
    The table has a record without identity fields behind the record of
    [M1]: the vote of [M1] is in scope, the first application merges and
    stamps the record of [M1] and raises [KeyError] at the next record,
    before the signature is appended; the second application finds the
    signature new and merges and stamps again. *)
Lemma replay_after_key_error_merges_again :
  let cfg := config 4 false in
  let unkeyed : dict := list_to_map [("server_name", VStr "stray")] in
  let s := VState [VStr "M1"; VStr "E1"]
                  [record (VStr "M1") (VStr "E1") 100; unkeyed] [] in
  let m := vote "M1" "S1" 101 in
  let r1 := check_validations cfg s m "t1" in
  let r2 := check_validations cfg (fst r1) m "t2" in
  (∃ data, msg_data m = Some data
           ∧ in_scope (val_keys s) data = true
           ∧ data !! "signature" = Some (VStr "S1"))
  ∧ snd r1 = Some (KeyError "master_key")
  ∧ processed_validations (fst r1) = []
  ∧ map (fun v => (get v "ledger_index", get v "time_updated"))
        (table_validator (fst r1))
    = [(VInt 101, VStr "t1"); (VNone, VNone)]
  ∧ map (fun v => (get v "ledger_index", get v "time_updated"))
        (table_validator (fst r2))
    = [(VInt 101, VStr "t2"); (VNone, VNone)]
  ∧ table_validator (fst r2) ≠ table_validator (fst r1).
Proof.
  split; [|split; [|split; [|split; [|split]]]].
  - eexists. split; [reflexivity|]. split; vm_compute; reflexivity.
  - vm_compute. reflexivity.
  - vm_compute. reflexivity.
  - vm_compute. reflexivity.
  - vm_compute. reflexivity.
  - intros Heq.
    apply (f_equal (map (fun v => get v "time_updated"))) in Heq.
    vm_compute in Heq. discriminate.
Qed.

(** C3.  A message whose [master_key] and [validation_public_key] values
    are both outside the tracked key set changes no record, no log entry
    and no key: the handler returns the state it was given. *)
Theorem membership_filter cfg s m stamp data :
  msg_data m = Some data →
  py_in (get data "master_key") (val_keys s) = false →
  py_in (get data "validation_public_key") (val_keys s) = false →
  fst (check_validations cfg s m stamp) = s.
Proof.
  intros Hdata Hmk Hvpk. unfold check_validations, in_scope.
  rewrite Hdata, Hmk, Hvpk. simpl.
  by destruct (msg_server_url m).
Qed.

Lemma membership_filter_witness :
  fst (check_validations (config 4 true) start (vote "UNKNOWN" "S9" 7) "t1") = start.
Proof.
  apply (membership_filter (config 4 true) start (vote "UNKNOWN" "S9" 7) "t1"
           (list_to_map [("type", VStr "validationReceived");
                         ("master_key", VStr "UNKNOWN"); ("signature", VStr "S9");
                         ("ledger_index", VInt 7)])).
  - reflexivity.
  - vm_compute. reflexivity.
  - vm_compute. reflexivity.
Defined.

(** [clean_validations] returns for every ceiling a double can hold. *)
Lemma clean_validations_returns cfg s :
  Z.abs (PROCESSED_VAL_MAX cfg) < 2 ^ 1024 →
  snd (clean_validations cfg s) = None.
Proof.
  intros Hmax. unfold clean_validations. case_bool_decide; [|done].
  destruct (half_returns (PROCESSED_VAL_MAX cfg) Hmax) as [h ->].
  destruct (REMOVE_DUP_VALIDATORS cfg); [|done].
  by destruct (del_dup_validators (table_validator s)).
Qed.

(** On a table whose records all have both identity fields, and with a
    ceiling a double can hold, a message with a payload, a signature and an
    origin is handled without a raise. *)
Lemma check_validations_returns cfg s m stamp data :
  Z.abs (PROCESSED_VAL_MAX cfg) < 2 ^ 1024 →
  Forall tracked (table_validator s) →
  msg_data m = Some data →
  is_Some (data !! "signature") →
  is_Some (msg_server_url m) →
  snd (check_validations cfg s m stamp) = None.
Proof.
  intros Hmax Htable Hdata [sig Hsig] [url Hurl].
  unfold check_validations, process_validations, update_table_validator, subscript.
  rewrite Hdata, Hsig, Hurl.
  destruct (in_scope (val_keys s) data); [|done].
  destruct (py_in sig (processed_validations s)); [done|]. simpl.
  destruct (update_loop_tracked data stamp (table_validator s) Htable) as [Hret _].
  destruct (update_loop data stamp (table_validator s)) as [table r].
  simpl in Hret. subst r. by apply clean_validations_returns.
Qed.

(** The end-to-end scenario of the specification: a vote of [M1] moves the
    ledger index to 101 and is logged; the same vote again changes nothing;
    a vote of an unknown key changes nothing. *)
Example end_to_end :
  let cfg := config 4 false in
  let s1 := fst (check_validations cfg start (vote "M1" "S1" 101) "t1") in
  map (fun v => get v "ledger_index") (table_validator s1) = [VInt 101]
  ∧ processed_validations s1 = [VStr "S1"]
  ∧ check_validations cfg s1 (vote "M1" "S1" 101) "t2" = (s1, None)
  ∧ check_validations cfg s1 (vote "UNKNOWN" "S2" 102) "t3" = (s1, None).
Proof. vm_compute. repeat split; reflexivity. Qed.

End HandlerFacts.

(** ** The validator registry *)

Module RegistryFacts.
Import Validation MergeFacts Fixtures.

(** C4.  On a record the message addresses (the test of
    [update_table_validator] holds for it), the update leaves every field
    the message does not carry as it was, sets every field of the record
    that the message carries to the message's value, adds no other field,
    and stamps [time_updated] with the current time. *)
Theorem merge_correctness table m data stamp (i : nat) (v : dict) :
  msg_data m = Some data →
  snd (update_table_validator table m stamp) = None →
  table !! i = Some v →
  matches data v = inr true →
  ∃ v', fst (update_table_validator table m stamp) !! i = Some v'
        ∧ v' !! "time_updated" = Some (VStr stamp)
        ∧ (∀ k, k ≠ "time_updated" → data !! k = None → v' !! k = v !! k)
        ∧ (∀ k x, k ≠ "time_updated" → is_Some (v !! k) →
                  data !! k = Some x → v' !! k = Some x)
        ∧ (∀ k, k ≠ "time_updated" → v !! k = None → v' !! k = None).
Proof.
  unfold update_table_validator. intros -> Hret Hi Hhit.
  destruct (update_loop_lookup data stamp table i v Hret Hi) as (hit & Hm & Hv').
  rewrite Hhit in Hm. injection Hm as <-.
  exists (update_validator data stamp v). split; [exact Hv'|].
  unfold update_validator. split; [apply lookup_insert_eq|].
  split; [|split].
  - intros k Hk Hnone. rewrite lookup_insert_ne by done.
    rewrite lookup_overwrite, Hnone. by destruct (v !! k).
  - intros k x Hk [y Hy] Hsome. rewrite lookup_insert_ne by done.
    by rewrite lookup_overwrite, Hy, Hsome.
  - intros k Hk Hnone. rewrite lookup_insert_ne by done.
    by rewrite lookup_overwrite, Hnone.
Qed.

Lemma merge_correctness_witness :
  let m := validation [("master_key", VStr "M1"); ("signature", VStr "S1");
                       ("ledger_index", VInt 101)] in
  fst (update_table_validator roster m "t1")
  = [list_to_map
       [("server_name", VStr "validator"); ("master_key", VStr "M1");
        ("validation_public_key", VStr "E1"); ("ledger_index", VInt 101);
        ("time_updated", VStr "t1")]]
  ∧ ∃ v', fst (update_table_validator roster m "t1") !! 0%nat = Some v'
          ∧ v' !! "time_updated" = Some (VStr "t1")
          ∧ v' !! "validation_public_key" = Some (VStr "E1")
          ∧ v' !! "ledger_index" = Some (VInt 101).
Proof.
  split; [vm_compute; reflexivity|].
  destruct (merge_correctness roster
              (validation [("master_key", VStr "M1"); ("signature", VStr "S1");
                           ("ledger_index", VInt 101)])
              (list_to_map [("type", VStr "validationReceived");
                            ("master_key", VStr "M1"); ("signature", VStr "S1");
                            ("ledger_index", VInt 101)])
              "t1" 0%nat (record (VStr "M1") (VStr "E1") 100))
    as (v' & Hv' & Htime & Hkeep & Hset & _).
  - reflexivity.
  - vm_compute. reflexivity.
  - reflexivity.
  - vm_compute. reflexivity.
  - exists v'. split; [exact Hv'|]. split; [exact Htime|]. split.
    + rewrite (Hkeep "validation_public_key"); [| discriminate |];
        vm_compute; reflexivity.
    + apply (Hset "ledger_index"); [discriminate | | vm_compute; reflexivity].
      exists (VInt 100). vm_compute. reflexivity.
Defined.



End RegistryFacts.

(** ** Duplicate removal *)

Module DedupFacts.
Import Validation Fixtures.

Lemma py_eq_sym (x y : value) : py_eq x y = py_eq y x.
Proof.
  destruct x as [|a|a|a], y as [|b|b|b]; simpl; try reflexivity;
    apply bool_decide_ext; split; congruence.
Qed.

Definition master_key_of (validator : dict) : value := get validator "master_key".

(** No two entries of [keys] are equal under [==]. *)
Definition distinct (keys : list value) : Prop :=
  ∀ (i j : nat) x y, keys !! i = Some x → keys !! j = Some y → i ≠ j →
                     py_eq x y = false.

Lemma py_in_false (x : value) (l : list value) :
  py_in x l = false ↔ ∀ y, y ∈ l → py_eq x y = false.
Proof.
  unfold py_in. induction l as [|z l IH]; simpl.
  - split; [|done]. intros _ y Hy. by apply elem_of_nil in Hy.
  - rewrite orb_false_iff, IH. split.
    + intros [Hz Hl] y Hy. apply elem_of_cons in Hy as [->|Hy]; auto.
    + intros Hall. split; [apply Hall; left|].
      intros y Hy. apply Hall. by right.
Qed.

Lemma distinct_snoc (keys : list value) (x : value) :
  distinct keys → py_in x keys = false → distinct (keys ++ [x]).
Proof.
  intros Hkeys Hnew i j a b Ha Hb Hij.
  rewrite py_in_false in Hnew.
  apply lookup_snoc_Some in Ha as [[Hi Ha] | [Hi <-]];
    apply lookup_snoc_Some in Hb as [[Hj Hb] | [Hj <-]].
  - by apply (Hkeys i j).
  - rewrite py_eq_sym. apply Hnew. by apply list_elem_of_lookup_2 in Ha.
  - apply Hnew. by apply list_elem_of_lookup_2 in Hb.
  - lia.
Qed.

(** The loop extends its accumulators by the records it keeps, which are a
    sublist of the table, and by their [master_key] values, [None] for a
    record without one. *)
Lemma del_dup_loop_kept table : ∀ keys acc,
  distinct keys →
  ∃ kept : list dict,
    del_dup_loop keys acc table
    = (keys ++ map master_key_of kept, acc ++ kept)
    ∧ sublist kept table
    ∧ distinct (keys ++ map master_key_of kept).
Proof.
  induction table as [|v table IH]; intros keys acc Hkeys; simpl.
  - exists []. rewrite !app_nil_r. split; [done|]. split; [constructor | done].
  - destruct (py_in (get v "master_key") keys) eqn:Hin; simpl.
    + destruct (IH keys acc Hkeys) as (kept & -> & Hsub & Hd).
      exists kept. split; [done|]. split; [by apply sublist_cons | done].
    + destruct (IH (keys ++ [get v "master_key"]) (acc ++ [v])) as (kept & -> & Hsub & Hd).
      { by apply distinct_snoc. }
      exists (v :: kept). simpl. rewrite <- !app_assoc. simpl.
      split; [done|]. split; [by apply sublist_skip|].
      by rewrite <- app_assoc in Hd.
Qed.

(** What does hold of [del_dup_validators]: the returned table is a
    sublist of the given one, the returned keys are the [master_key] values
    of its records, in order, and no two of them are equal. *)
Lemma del_dup_validators_kept table :
  let '(keys, kept) := del_dup_validators table in
  keys = map master_key_of kept ∧ sublist kept table ∧ distinct keys.
Proof.
  unfold del_dup_validators.
  destruct (del_dup_loop_kept table [] []) as (kept & -> & Hsub & Hd).
  - intros i j x y Hi. by rewrite lookup_nil in Hi.
  - done.
Qed.

(** C5 (divergence).  Two validators tracked by their ephemeral keys only:
    the pass takes the absent [master_key] of the first for a key, [None],
    and drops the second as its duplicate. *)
Lemma del_dup_validators_drops_unkeyed_record :
  del_dup_validators [record VNone (VStr "E1") 100; record VNone (VStr "E2") 200]
  = ([VNone], [record VNone (VStr "E1") 100]).
Proof. vm_compute. reflexivity. Qed.

(** C6 (divergence).  The second vote fills the log to its ceiling of 2, the
    prune fires and the dedup pass replaces the key set with the master
    keys alone: [E1], the ephemeral key of the one record that remains, is
    gone, and a vote known by that key only, in scope before the pass, is
    ignored after it. *)
Lemma dedup_pass_forgets_ephemeral_keys :
  let cfg := config 2 true in
  let by_ephemeral_key :=
    [("validation_public_key", VStr "E1"); ("signature", VStr "S3");
     ("ledger_index", VInt 103)] in
  let s2 := fst (check_validations cfg
                   (fst (check_validations cfg start (vote "M1" "S1" 101) "t1"))
                   (vote "M1" "S2" 102) "t2") in
  val_keys start = [VStr "M1"; VStr "E1"]
  ∧ map (fun v => get v "validation_public_key") (table_validator s2) = [VStr "E1"]
  ∧ val_keys s2 = [VStr "M1"]
  ∧ in_scope (val_keys start) (list_to_map by_ephemeral_key) = true
  ∧ in_scope (val_keys s2) (list_to_map by_ephemeral_key) = false
  ∧ check_validations cfg s2 (validation by_ephemeral_key) "t3" = (s2, None).
Proof. vm_compute. repeat split; reflexivity. Qed.

End DedupFacts.

(** ** The dispatcher, the triggers and the loop *)

Module ProcessorFacts.
Import Processor Fixtures ProcessorFixtures.

Lemma py_eq_str (x : value) (s : string) : py_eq x (VStr s) = true ↔ x = VStr s.
Proof.
  destruct x as [|b|n|t]; simpl; try (split; discriminate).
  rewrite bool_decide_eq_true. split; congruence.
Qed.

(** Closes a goal about the attributes left by a step once its branches
    are laid open. *)
Ltac settle :=
  simpl; rewrite <- ?app_assoc, ?app_nil_r; simpl;
  repeat split; auto; try discriminate.

Section Facts.
Context `{Collaborators}.

(** The tests of the three triggers, as the code writes them. *)
Definition fork_due (cfg : settings) (now : Z) (self : processor) : bool :=
  bool_decide (FORK_CHECK_FREQ cfg < now - time_fork_check self).
Definition console_due (cfg : settings) (now : Z) (self : processor) : bool :=
  CONSOLE_OUT cfg
  && bool_decide (CONSOLE_REFRESH_TIME cfg ≤ now - time_last_output self).
Definition heartbeat_due (cfg : settings) (now : Z) (self : processor) : bool :=
  ADMIN_HEARTBEAT cfg
  && bool_decide (HEARTBEAT_INTERVAL cfg ≤ now - last_heartbeat self).

(** The events by which the dispatcher hands [m] over. *)
Definition handover (m : message) (routed : list event) : Prop :=
  routed = [] ∨ routed = [EUpdateTableServer m]
  ∨ routed = [EUpdateTableLedger m] ∨ routed = [ECheckValidations m].

Lemma heartbeats_app (l1 l2 : list event) :
  heartbeats (l1 ++ l2) = (heartbeats l1 + heartbeats l2)%nat.
Proof. unfold heartbeats. by rewrite filter_app, length_app. Qed.

Lemma handover_heartbeats m routed : handover m routed → heartbeats routed = 0%nat.
Proof. by intros [->|[->|[->| ->]]]. Qed.

(** *** sort_new_messages *)

Lemma sort_new_messages_frame cfg now m self :
  ∃ routed,
    trace (fst (sort_new_messages cfg now m self)) = trace self ++ routed
    ∧ handover m routed
    ∧ time_fork_check (fst (sort_new_messages cfg now m self)) = time_fork_check self
    ∧ time_last_output (fst (sort_new_messages cfg now m self)) = time_last_output self
    ∧ last_heartbeat (fst (sort_new_messages cfg now m self)) = last_heartbeat self.
Proof.
  unfold sort_new_messages, handover.
  destruct (msg_data m) as [data|]; [|exists []; rewrite app_nil_r; auto].
  case_bool_decide.
  { destruct (update_table_server _ _ m) as [[stock queue] r].
    exists [EUpdateTableServer m]. simpl. auto 10. }
  destruct (subscript data "type") as [e|type];
    [exists []; rewrite app_nil_r; auto|].
  destruct (py_eq type (VStr "ledgerClosed")).
  { destruct (update_table_ledger _ m) as [stock r].
    exists [EUpdateTableLedger m]. simpl. auto 10. }
  destruct (py_eq type (VStr "validationReceived")).
  { destruct (Validation.check_validations _ _ m _) as [s r].
    exists [ECheckValidations m]. simpl. auto 10. }
  exists []. rewrite app_nil_r. auto.
Qed.

(** C7 (as amended).  The dispatcher hands a message to at most one
    handler, the first whose shape test holds: a [result] key sends it to
    the server handler; otherwise a [type] equal to [ledgerClosed] sends it
    to the ledger handler and a [type] equal to [validationReceived] to the
    validation handler.  A message with neither [result] nor [type] raises
    [KeyError], which the loop boundary receives.  A message whose [type]
    is anything else is handed to no handler and raises nothing. *)
Theorem dispatch_by_shape cfg now m data self :
  msg_data m = Some data →
  (is_Some (data !! "result") →
   trace (fst (sort_new_messages cfg now m self))
   = trace self ++ [EUpdateTableServer m])
  ∧ (data !! "result" = None → data !! "type" = None →
     sort_new_messages cfg now m self = (self, Some (KeyError "type")))
  ∧ (data !! "result" = None → data !! "type" = Some (VStr "ledgerClosed") →
     trace (fst (sort_new_messages cfg now m self))
     = trace self ++ [EUpdateTableLedger m])
  ∧ (data !! "result" = None → data !! "type" = Some (VStr "validationReceived") →
     trace (fst (sort_new_messages cfg now m self))
     = trace self ++ [ECheckValidations m])
  ∧ (∀ type, data !! "result" = None → data !! "type" = Some type →
             type ≠ VStr "ledgerClosed" → type ≠ VStr "validationReceived" →
             sort_new_messages cfg now m self = (self, None)).
Proof.
  intros Hdata. unfold sort_new_messages, subscript. rewrite Hdata.
  repeat split.
  - intros Hres. rewrite bool_decide_eq_true_2 by by apply elem_of_dom.
    by destruct (update_table_server _ _ m) as [[stock queue] r].
  - intros Hres Htype.
    rewrite bool_decide_eq_false_2 by (rewrite elem_of_dom, Hres; by intros [? ?]).
    by rewrite Htype.
  - intros Hres Htype.
    rewrite bool_decide_eq_false_2 by (rewrite elem_of_dom, Hres; by intros [? ?]).
    rewrite Htype. simpl.
    by destruct (update_table_ledger _ m) as [stock r].
  - intros Hres Htype.
    rewrite bool_decide_eq_false_2 by (rewrite elem_of_dom, Hres; by intros [? ?]).
    rewrite Htype. simpl.
    by destruct (Validation.check_validations _ _ m _) as [s r].
  - intros type Hres Htype Hledger Hvalidation.
    rewrite bool_decide_eq_false_2 by (rewrite elem_of_dom, Hres; by intros [? ?]).
    rewrite Htype.
    destruct (py_eq type (VStr "ledgerClosed")) eqn:H1;
      [by apply py_eq_str in H1|].
    destruct (py_eq type (VStr "validationReceived")) eqn:H2;
      [by apply py_eq_str in H2|].
    reflexivity.
Qed.

(** *** The loop boundary *)

(** C9.  When the processing of a message raises: a [KeyError] is logged
    as a warning together with the message and the loop takes the next
    arrival; [CancelledError] and [KeyboardInterrupt] are logged and the
    loop stops in order; every other [Exception] is logged as critical and
    the loop takes the next arrival.  No [Exception] raised for a message
    ends the loop. *)
Theorem loop_survives_bad_message cfg self now m rest self' e :
  body cfg now m self = (self', Some e) →
  (∀ k, e = KeyError k →
        loop cfg self (Arrive now m :: rest)
        = loop cfg (emit (ELog WARNING (UnexpectedMessage e m)) self') rest)
  ∧ (e = CancelledError ∨ e = KeyboardInterrupt →
     loop cfg self (Arrive now m :: rest)
     = (emit (ELog CRITICAL Interrupted) self', Stopped))
  ∧ (is_Exception e = true → (∀ k, e ≠ KeyError k) →
     loop cfg self (Arrive now m :: rest)
     = loop cfg (emit (ELog CRITICAL (Uncaught e)) self') rest)
  ∧ (is_Exception e = true →
     ∃ self'', iteration cfg self (Arrive now m) = (self'', Running)).
Proof.
  intros Hbody. cbn [loop iteration]. rewrite Hbody.
  split; [|split; [|split]].
  - by intros k ->.
  - by intros [-> | ->].
  - intros Hexc Hkey. destruct e; try done. by destruct (Hkey k).
  - intros Hexc. destruct e; try done; simpl; eauto.
Qed.

(** *** The periodic triggers *)

Lemma evaluate_forks_fires cfg now self :
  trace (fst (evaluate_forks cfg now self))
  = trace self ++ (if fork_due cfg now self then [EForkChecker] else [])
  ∧ (fork_due cfg now self = false → evaluate_forks cfg now self = (self, None))
  ∧ time_last_output (fst (evaluate_forks cfg now self)) = time_last_output self
  ∧ last_heartbeat (fst (evaluate_forks cfg now self)) = last_heartbeat self.
Proof.
  unfold evaluate_forks, fork_due. case_bool_decide.
  - destruct (fork_checker _ _ _ _) as [queue [e|[[modes stock] validators]]];
      settle.
  - settle.
Qed.

Lemma process_console_output_fires cfg now self :
  ∃ printed,
    (printed = [] ∨ printed = [EPrintTableValidation])
    ∧ trace (fst (process_console_output cfg now self))
      = trace self ++ (if console_due cfg now self
                       then EClear :: EPrintTableServer :: printed else [])
    ∧ (console_due cfg now self = false →
       process_console_output cfg now self = (self, None))
    ∧ last_heartbeat (fst (process_console_output cfg now self)) = last_heartbeat self
    ∧ ll_modes (fst (process_console_output cfg now self)) = ll_modes self.
Proof.
  unfold process_console_output, console_due.
  destruct (CONSOLE_OUT cfg && bool_decide (_ ≤ _)); [|exists []; settle].
  simpl. destruct (print_table_server _) as [e|]; [exists []; settle|].
  destruct (table_validator self) as [|v table]; [exists []; settle|].
  exists [EPrintTableValidation].
  destruct (Rendering.print_table_validation _); settle.
Qed.


(** A step that leaves the heartbeat as it found it. *)
Definition idle (self self' : processor) : Prop :=
  last_heartbeat self' = last_heartbeat self
  ∧ heartbeats (trace self') = heartbeats (trace self).

Lemma idle_refl self : idle self self.
Proof. by split. Qed.


Lemma sort_new_messages_idle cfg now m self :
  idle self (fst (sort_new_messages cfg now m self)).
Proof.
  destruct (sort_new_messages_frame cfg now m self)
    as (routed & Htrace & Hrouted & _ & _ & Hbeat).
  split; [done|]. rewrite Htrace, heartbeats_app.
  rewrite (handover_heartbeats m routed Hrouted). lia.
Qed.

Lemma evaluate_forks_idle cfg now self :
  idle self (fst (evaluate_forks cfg now self)).
Proof.
  destruct (evaluate_forks_fires cfg now self) as (Htrace & _ & _ & Hbeat).
  split; [done|]. rewrite Htrace, heartbeats_app.
  destruct (fork_due cfg now self); simpl; [change (heartbeats [EForkChecker]) with 0%nat|
                                            change (heartbeats []) with 0%nat]; lia.
Qed.

Lemma process_console_output_idle cfg now self :
  idle self (fst (process_console_output cfg now self)).
Proof.
  destruct (process_console_output_fires cfg now self)
    as (printed & Hprinted & Htrace & _ & Hbeat & _).
  split; [done|]. rewrite Htrace, heartbeats_app.
  destruct (console_due cfg now self); [|change (heartbeats []) with 0%nat; lia].
  destruct Hprinted as [-> | ->].
  - change (heartbeats [EClear; EPrintTableServer]) with 0%nat. lia.
  - change (heartbeats [EClear; EPrintTableServer; EPrintTableValidation])
      with 0%nat. lia.
Qed.

(** Where the [try] block of one message ends: at the step that raises,
    or at the heartbeat. *)
Lemma body_cases cfg now m self self' r :
  body cfg now m self = (self', r) →
  let s1 := fst (sort_new_messages cfg now m self) in
  let s2 := fst (evaluate_forks cfg now s1) in
  let s3 := fst (process_console_output cfg now s2) in
  (is_Some r ∧ (self' = s1 ∨ self' = s2 ∧ snd (sort_new_messages cfg now m self) = None
                ∨ self' = s3))
  ∨ (snd (sort_new_messages cfg now m self) = None
     ∧ snd (evaluate_forks cfg now s1) = None
     ∧ snd (process_console_output cfg now s2) = None
     ∧ heartbeat_message cfg now s3 = (self', r)).
Proof.
  unfold body, and_then.
  destruct (sort_new_messages cfg now m self) as [s1 [e|]]; simpl.
  { intros [= <- <-]. left. eauto. }
  destruct (evaluate_forks cfg now s1) as [s2 [e|]]; simpl.
  { intros [= <- <-]. left. eauto. }
  destruct (process_console_output cfg now s2) as [s3 [e|]]; simpl.
  { intros [= <- <-]. left. eauto. }
  intros Hbeat. right. auto.
Qed.

Lemma triggers_see_original_clocks cfg now m self :
  let s1 := fst (sort_new_messages cfg now m self) in
  let s2 := fst (evaluate_forks cfg now s1) in
  let s3 := fst (process_console_output cfg now s2) in
  fork_due cfg now s1 = fork_due cfg now self
  ∧ console_due cfg now s2 = console_due cfg now self
  ∧ heartbeat_due cfg now s3 = heartbeat_due cfg now self
  ∧ idle self s3.
Proof.
  intros s1 s2 s3.
  destruct (sort_new_messages_frame cfg now m self)
    as (routed & _ & _ & Hfork1 & Hout1 & Hbeat1).
  destruct (evaluate_forks_fires cfg now s1) as (_ & _ & Hout2 & Hbeat2).
  destruct (process_console_output_fires cfg now s2) as (? & _ & _ & _ & Hbeat3 & _).
  fold s1 in Hfork1, Hout1, Hbeat1. fold s2 in Hout2, Hbeat2. fold s3 in Hbeat3.
  unfold fork_due, console_due, heartbeat_due.
  rewrite Hfork1, Hout2, Hout1, Hbeat3, Hbeat2, Hbeat1.
  repeat split; try reflexivity.
  - congruence.
  - pose proof (sort_new_messages_idle cfg now m self) as [_ H1].
    pose proof (evaluate_forks_idle cfg now s1) as [_ H2].
    pose proof (process_console_output_idle cfg now s2) as [_ H3].
    fold s1 in H1. fold s2 in H2. fold s3 in H3. congruence.
Qed.







End Facts.

Lemma dispatch_by_shape_witness :
  trace (fst (@sort_new_messages quiet (config 4 true) 0 (vote "M1" "S1" 101) ready))
  = [ECheckValidations (vote "M1" "S1" 101)]
  ∧ @sort_new_messages quiet (config 4 true) 0 shapeless ready
    = (ready, Some (KeyError "type")).
Proof.
  pose proof (@dispatch_by_shape quiet (config 4 true) 0 (vote "M1" "S1" 101)
                (list_to_map [("type", VStr "validationReceived");
                              ("master_key", VStr "M1"); ("signature", VStr "S1");
                              ("ledger_index", VInt 101)])
                ready eq_refl) as (_ & _ & _ & Hvalidation & _).
  pose proof (@dispatch_by_shape quiet (config 4 true) 0 shapeless
                (list_to_map [("status", VStr "error")])
                ready eq_refl) as (_ & Hshapeless & _).
  split.
  - apply Hvalidation; vm_compute; reflexivity.
  - apply Hshapeless; vm_compute; reflexivity.
Defined.

(** C7, as stated, fails on a message of another stream: the dispatcher
    returns without a raise and without a handler, and the loop goes on with
    no log record of it. *)
Lemma unrecognized_type_dropped_silently :
  msg_data transaction = Some (list_to_map [("type", VStr "transaction")])
  ∧ @sort_new_messages quiet (config 4 true) 0 transaction ready = (ready, None)
  ∧ @iteration quiet (config 4 true) ready (Arrive 0 transaction) = (ready, Running)
  ∧ ¬ (∃ e, snd (@sort_new_messages quiet (config 4 true) 0 transaction ready)
            = Some e).
Proof.
  split; [reflexivity|]. split; [vm_compute; reflexivity|].
  split; [vm_compute; reflexivity|].
  intros [e He]. vm_compute in He. discriminate.
Qed.

Lemma loop_survives_bad_message_witness :
  let cfg := config 4 true in
  let rest := [Arrive 61 (vote "M1" "S2" 102)] in
  @body quiet cfg 30 shapeless ready = (ready, Some (KeyError "type"))
  ∧ @loop quiet cfg ready (Arrive 30 shapeless :: rest)
    = @loop quiet cfg
        (emit (ELog WARNING (UnexpectedMessage (KeyError "type") shapeless)) ready)
        rest
  ∧ snd (@loop quiet cfg ready (Arrive 30 shapeless :: rest)) = Running.
Proof.
  assert (Hbody : @body quiet (config 4 true) 30 shapeless ready
                  = (ready, Some (KeyError "type")))
    by (vm_compute; reflexivity).
  split; [exact Hbody|]. split.
  - exact (proj1 (@loop_survives_bad_message quiet (config 4 true) ready 30
                    shapeless [Arrive 61 (vote "M1" "S2" 102)] ready
                    (KeyError "type") Hbody) "type" eq_refl).
  - vm_compute. reflexivity.
Defined.

(** An exception of the processor's own making that is no [KeyError]: the
    heartbeat is due before any fork check has reported a network mode, so
    [ll_modes[0]] raises; the loop logs it as critical and goes on. *)
Example heartbeat_before_fork_check :
  let cfg := Settings 4 true 1000 false 5 true 60 ["admin-1"] in
  @body quiet cfg 61 (vote "M1" "S1" 101) ready
  = (fst (@sort_new_messages quiet cfg 61 (vote "M1" "S1" 101) ready),
     Some IndexError)
  ∧ snd (@iteration quiet cfg ready (Arrive 61 (vote "M1" "S1" 101))) = Running
  ∧ notification_queue
      (fst (@iteration quiet cfg ready (Arrive 61 (vote "M1" "S1" 101)))) = [].
Proof. vm_compute. repeat split; reflexivity. Qed.



End ProcessorFacts.

(** * Further properties of the code *)

(** ** del_dup_validators *)

Module DedupExtras.
Import Validation Fixtures DedupFacts.

(** The keys the loop starts from stay in, and every record of the table
    finds its [master_key] value among the keys at the end. *)
Lemma del_dup_loop_covers table : ∀ keys acc,
  (∀ x, py_in x keys = true → py_in x (fst (del_dup_loop keys acc table)) = true)
  ∧ (∀ v, v ∈ table →
          py_in (master_key_of v) (fst (del_dup_loop keys acc table)) = true).
Proof.
  induction table as [|w table IH]; intros keys acc; simpl.
  - split; [done|]. intros v Hv. by apply elem_of_nil in Hv.
  - destruct (py_in (get w "master_key") keys) eqn:Hin; simpl.
    + destruct (IH keys acc) as [Hold Hnew]. split; [done|].
      intros v Hv. apply elem_of_cons in Hv as [->|Hv]; [|by apply Hnew].
      by apply Hold.
    + destruct (IH (keys ++ [get w "master_key"]) (acc ++ [w])) as [Hold Hnew].
      split.
      * intros x Hx. apply Hold. by rewrite py_in_app, Hx.
      * intros v Hv. apply elem_of_cons in Hv as [->|Hv]; [|by apply Hnew].
        apply Hold. apply py_in_last.
Qed.

(** The records kept so far are never taken back. *)
Lemma del_dup_loop_extends table : ∀ keys acc,
  ∃ kept, snd (del_dup_loop keys acc table) = acc ++ kept.
Proof.
  induction table as [|w table IH]; intros keys acc; simpl.
  - exists []. by rewrite app_nil_r.
  - destruct (py_in (get w "master_key") keys); simpl; [apply IH|].
    destruct (IH (keys ++ [get w "master_key"]) (acc ++ [w])) as [kept ->].
    exists (w :: kept). by rewrite <- app_assoc.
Qed.

(** A table whose [master_key] values differ from each other and from the
    keys seen so far goes through the loop whole. *)
Lemma del_dup_loop_distinct table : ∀ keys acc,
  distinct (keys ++ map master_key_of table) →
  del_dup_loop keys acc table = (keys ++ map master_key_of table, acc ++ table).
Proof.
  induction table as [|v table IH]; intros keys acc Hd; simpl.
  - by rewrite !app_nil_r.
  - assert (Hnew : py_in (get v "master_key") keys = false).
    { apply py_in_false. intros y Hy.
      apply list_elem_of_lookup in Hy as [i Hi].
      rewrite py_eq_sym.
      apply (Hd i (length keys) y (get v "master_key")).
      - rewrite lookup_app_l; [done|]. by eapply lookup_lt_Some.
      - simpl. by apply list_lookup_middle.
      - apply lookup_lt_Some in Hi. lia. }
    rewrite Hnew. simpl. rewrite IH.
    + by rewrite <- !app_assoc.
    + by rewrite <- app_assoc.
Qed.

Lemma del_dup_loop_keeps_first pre : ∀ keys acc v post,
  py_in (master_key_of v) keys = false →
  (∀ w, w ∈ pre → py_eq (master_key_of v) (master_key_of w) = false) →
  v ∈ snd (del_dup_loop keys acc (pre ++ v :: post)).
Proof.
  induction pre as [|w pre IH]; intros keys acc v post Hnew Hpre; simpl.
  - unfold master_key_of in Hnew. rewrite Hnew. simpl.
    destruct (del_dup_loop_extends post (keys ++ [get v "master_key"]) (acc ++ [v]))
      as [kept ->].
    rewrite !elem_of_app. left. right. by apply list_elem_of_singleton.
  - destruct (py_in (get w "master_key") keys); simpl.
    + apply IH; [done|]. intros u Hu. apply Hpre. by right.
    + apply IH.
      * rewrite py_in_app, Hnew. simpl. rewrite orb_false_r.
        apply Hpre. by left.
      * intros u Hu. apply Hpre. by right.
Qed.

(** X1.  [del_dup_validators] returns a sublist of the table, in the
    table's order, together with the [master_key] values of exactly the
    records it returns ([None] for a record without one); no two returned
    keys are equal under [==], and every record of the table, kept or
    dropped, has its [master_key] value among them. *)
Theorem del_dup_validators_sound table :
  fst (del_dup_validators table) = map master_key_of (snd (del_dup_validators table))
  ∧ sublist (snd (del_dup_validators table)) table
  ∧ distinct (fst (del_dup_validators table))
  ∧ ∀ v, v ∈ table →
         py_in (master_key_of v) (fst (del_dup_validators table)) = true.
Proof.
  unfold del_dup_validators.
  destruct (del_dup_loop_covers table [] []) as [_ Hcover].
  destruct (del_dup_loop_kept table [] []) as (kept & Hloop & Hsub & Hd).
  { intros i j x y Hi. by rewrite lookup_nil in Hi. }
  rewrite Hloop in Hcover |- *. simpl in *. auto.
Qed.

(** X2.  The first record carrying a [master_key] value is the one kept: a
    record no earlier record equals in [master_key] is in the result. *)
Theorem del_dup_validators_keeps_first pre v post :
  (∀ w, w ∈ pre → py_eq (master_key_of v) (master_key_of w) = false) →
  v ∈ snd (del_dup_validators (pre ++ v :: post)).
Proof. intros Hpre. by apply del_dup_loop_keeps_first. Qed.

Lemma del_dup_validators_keeps_first_witness :
  record (VStr "M2") (VStr "E2") 2
  ∈ snd (del_dup_validators
           ([record (VStr "M1") (VStr "E1") 1; record (VStr "M1") (VStr "E9") 9]
              ++ record (VStr "M2") (VStr "E2") 2
              :: [record (VStr "M2") (VStr "E3") 3])).
Proof.
  apply (del_dup_validators_keeps_first
           [record (VStr "M1") (VStr "E1") 1; record (VStr "M1") (VStr "E9") 9]
           (record (VStr "M2") (VStr "E2") 2)
           [record (VStr "M2") (VStr "E3") 3]).
  intros w Hw.
  apply elem_of_cons in Hw as [->|Hw]; [vm_compute; reflexivity|].
  apply list_elem_of_singleton in Hw as ->. vm_compute. reflexivity.
Defined.

(** X3.  A table whose [master_key] values are pairwise different under
    [==] is returned as it is, with its keys in order; in particular a second
    pass over the result of a pass removes nothing more. *)
Theorem del_dup_validators_distinct table :
  distinct (map master_key_of table) →
  del_dup_validators table = (map master_key_of table, table).
Proof. intros Hd. by apply (del_dup_loop_distinct table [] []). Qed.

Lemma del_dup_validators_distinct_witness :
  let table := [record (VStr "M1") (VStr "E1") 1; record (VStr "M2") (VStr "E2") 2;
                record VNone (VStr "E3") 3] in
  del_dup_validators table = ([VStr "M1"; VStr "M2"; VNone], table).
Proof.
  apply (del_dup_validators_distinct
           [record (VStr "M1") (VStr "E1") 1; record (VStr "M2") (VStr "E2") 2;
            record VNone (VStr "E3") 3]).
  intros i j x y Hi Hj Hij.
  destruct i as [|[|[|i]]], j as [|[|[|j]]]; try done;
    vm_compute in Hi, Hj; injection Hi as <-; injection Hj as <-; reflexivity.
Defined.

(** X4.  The pass is idempotent. *)
Theorem del_dup_validators_idempotent table :
  del_dup_validators (snd (del_dup_validators table)) = del_dup_validators table.
Proof.
  unfold del_dup_validators.
  destruct (del_dup_loop_kept table [] []) as (kept & -> & _ & Hd).
  { intros i j x y Hi. by rewrite lookup_nil in Hi. }
  simpl in *. by apply (del_dup_loop_distinct kept [] []).
Qed.

End DedupExtras.

(** ** update_table_validator *)

Module MergeExtras.
Import Validation MergeFacts Fixtures.

(** What one turn of the loop of [update_table_validator] makes of a record
    whose test raises nothing. *)
Definition merge_record (data : dict) (stamp : string) (validator : dict) : dict :=
  match matches data validator with
  | inr true => update_validator data stamp validator
  | _ => validator
  end.

Lemma dom_overwrite (data validator : dict) :
  dom (overwrite data validator) = dom validator.
Proof.
  apply set_eq. intros k. rewrite !elem_of_dom, lookup_overwrite.
  destruct (validator !! k); split; intros [? ?]; eauto; done.
Qed.

Lemma dom_update_validator data stamp validator :
  dom (update_validator data stamp validator) = {["time_updated"]} ∪ dom validator.
Proof. unfold update_validator. by rewrite dom_insert_L, dom_overwrite. Qed.

(** Raise or not, each record of the result is the record it was or that
    record merged. *)
Lemma update_loop_records data stamp table : ∀ (i : nat) (v : dict),
  table !! i = Some v →
  fst (update_loop data stamp table) !! i = Some v
  ∨ fst (update_loop data stamp table) !! i = Some (update_validator data stamp v).
Proof.
  induction table as [|w table IH]; intros i v Hi; [done|]. simpl.
  destruct (matches data w) as [e|hit]; [by left|].
  destruct (update_loop data stamp table) as [rest r] eqn:Hrest.
  destruct i as [|i]; simpl in *.
  - injection Hi as ->. destruct hit; auto.
  - by apply IH.
Qed.

(** X5.  Whether it returns or raises, [update_table_validator] keeps the
    number of records, and the only field it can add to a record is
    [time_updated]; it removes none. *)
Theorem update_table_validator_shape table m stamp :
  length (fst (update_table_validator table m stamp)) = length table
  ∧ ∀ (i : nat) (v : dict), table !! i = Some v →
      ∃ v', fst (update_table_validator table m stamp) !! i = Some v'
            ∧ dom v ⊆ dom v'
            ∧ dom v' ⊆ {["time_updated"]} ∪ dom v.
Proof.
  unfold update_table_validator. destruct (msg_data m) as [data|]; simpl.
  - split; [apply update_loop_length|]. intros i v Hi.
    destruct (update_loop_records data stamp table i v Hi) as [-> | ->].
    + exists v. split; [done|]. set_solver.
    + exists (update_validator data stamp v). split; [done|].
      rewrite dom_update_validator. set_solver.
  - split; [done|]. intros i v Hi. exists v. split; [done|]. set_solver.
Qed.

(** X6.  A record that lacks the identity field the test reads stops the
    loop with [KeyError]: the records before it have been merged, that
    record and every later one are left as they were. *)
Theorem update_table_validator_stops_at_key_error m data stamp pre bad post e :
  msg_data m = Some data →
  Forall (fun v => ∃ hit, matches data v = inr hit) pre →
  matches data bad = inl e →
  update_table_validator (pre ++ bad :: post) m stamp
  = (map (merge_record data stamp) pre ++ bad :: post, Some e).
Proof.
  unfold update_table_validator. intros -> Hpre Hbad.
  induction Hpre as [|v pre [hit Hv] _ IH]; simpl.
  - by rewrite Hbad.
  - assert (Hm : merge_record data stamp v
                 = if hit then update_validator data stamp v else v)
      by (unfold merge_record; rewrite Hv; by destruct hit).
    by rewrite Hv, IH, Hm.
Qed.

Lemma update_table_validator_stops_at_key_error_witness :
  let unkeyed : dict := list_to_map [("server_name", VStr "bare")] in
  let m := vote "M1" "S1" 101 in
  update_table_validator
    ([record (VStr "M1") (VStr "E1") 100] ++ unkeyed :: [record (VStr "M1") (VStr "E2") 100])
    m "t1"
  = ([list_to_map
        [("server_name", VStr "validator"); ("master_key", VStr "M1");
         ("validation_public_key", VStr "E1"); ("ledger_index", VInt 101);
         ("time_updated", VStr "t1")];
      unkeyed; record (VStr "M1") (VStr "E2") 100],
     Some (KeyError "master_key")).
Proof.
  intros unkeyed m.
  refine (eq_trans
    (update_table_validator_stops_at_key_error m
       (list_to_map [("type", VStr "validationReceived");
                     ("master_key", VStr "M1"); ("signature", VStr "S1");
                     ("ledger_index", VInt 101)])
       "t1" [record (VStr "M1") (VStr "E1") 100] unkeyed
       [record (VStr "M1") (VStr "E2") 100] (KeyError "master_key") _ _ _) _).
  - reflexivity.
  - constructor; [|constructor]. exists true. vm_compute. reflexivity.
  - vm_compute. reflexivity.
  - vm_compute. reflexivity.
Defined.

(** X7.  On a table whose records all have both identity fields the update
    raises nothing, merges exactly the records the test selects, and leaves a
    table whose records all have both identity fields. *)
Theorem update_table_validator_total table m data stamp :
  msg_data m = Some data →
  Forall tracked table →
  update_table_validator table m stamp = (map (merge_record data stamp) table, None)
  ∧ Forall tracked (map (merge_record data stamp) table).
Proof.
  unfold update_table_validator. intros -> Htable.
  induction Htable as [|v table Hv _ [IHeq IHt]]; simpl; [by split|].
  destruct (matches_tracked data v Hv) as [hit Hhit].
  assert (Hm : merge_record data stamp v
               = if hit then update_validator data stamp v else v)
    by (unfold merge_record; rewrite Hhit; by destruct hit).
  rewrite Hhit, IHeq, Hm. split; [done|].
  constructor; [|done]. destruct hit; [by apply update_validator_tracked | done].
Qed.

Lemma update_table_validator_total_witness :
  snd (update_table_validator roster (vote "M1" "S1" 101) "t1") = None
  ∧ Forall tracked (fst (update_table_validator roster (vote "M1" "S1" 101) "t1")).
Proof.
  destruct (update_table_validator_total roster (vote "M1" "S1" 101)
              (list_to_map [("type", VStr "validationReceived");
                            ("master_key", VStr "M1"); ("signature", VStr "S1");
                            ("ledger_index", VInt 101)])
              "t1" eq_refl) as [Heq Ht].
  - constructor; [|constructor]. split; eexists; vm_compute; reflexivity.
  - rewrite Heq. split; [reflexivity | exact Ht].
Defined.

(** X8.  A record that shares neither key with the message is left exactly
    as it was. *)
Theorem update_table_validator_frame table m data stamp (i : nat) (v : dict) :
  msg_data m = Some data →
  snd (update_table_validator table m stamp) = None →
  table !! i = Some v →
  py_eq (get data "master_key") (get v "master_key") = false →
  py_eq (get data "validation_public_key") (get v "validation_public_key") = false →
  fst (update_table_validator table m stamp) !! i = Some v.
Proof.
  unfold update_table_validator. intros -> Hret Hi Hmk Hvpk.
  destruct (update_loop_lookup data stamp table i v Hret Hi) as (hit & Hm & ->).
  assert (hit = false) as ->; [|done].
  unfold matches, subscript, get in Hm, Hmk, Hvpk.
  destruct (v !! "master_key") as [k0|]; destruct (v !! "validation_public_key") as [k1|];
    simpl in Hmk, Hvpk;
    destruct (truthy (default VNone (data !! "master_key")));
    rewrite ?Hmk, ?Hvpk in Hm; congruence.
Qed.

Lemma update_table_validator_frame_witness :
  let table := [record (VStr "M1") (VStr "E1") 100; record (VStr "M2") (VStr "E2") 200] in
  fst (update_table_validator table (vote "M1" "S1" 101) "t1") !! 1%nat
  = Some (record (VStr "M2") (VStr "E2") 200).
Proof.
  apply (update_table_validator_frame
           [record (VStr "M1") (VStr "E1") 100; record (VStr "M2") (VStr "E2") 200]
           (vote "M1" "S1" 101)
           (list_to_map [("type", VStr "validationReceived");
                         ("master_key", VStr "M1"); ("signature", VStr "S1");
                         ("ledger_index", VInt 101)])
           "t1" 1%nat (record (VStr "M2") (VStr "E2") 200)).
  - reflexivity.
  - vm_compute. reflexivity.
  - reflexivity.
  - vm_compute. reflexivity.
  - vm_compute. reflexivity.
Defined.

(** A merged record still passes the test of the message that was merged. *)
Lemma matches_after_update data stamp v :
  matches data v = inr true →
  matches data (update_validator data stamp v) = inr true.
Proof.
  unfold matches, subscript, update_validator.
  rewrite !lookup_insert_ne by done. rewrite !lookup_overwrite.
  unfold get.
  destruct (data !! "master_key") as [mk|] eqn:Hmk; simpl;
    destruct (data !! "validation_public_key") as [vpk|] eqn:Hvpk; simpl;
    destruct (v !! "master_key") as [k|]; simpl;
    destruct (v !! "validation_public_key") as [k'|]; simpl;
    try destruct (truthy mk); simpl; try done;
    rewrite ?py_eq_refl; try done;
    try (destruct (py_eq mk k); done).
Qed.

(** Merging again, at a later time, gives what one merge at that time gives. *)
Lemma update_validator_again data s1 s2 v :
  update_validator data s2 (update_validator data s1 v) = update_validator data s2 v.
Proof.
  unfold update_validator. apply map_eq. intros k.
  destruct (decide (k = "time_updated")) as [->|Hk].
  - by rewrite !lookup_insert_eq.
  - rewrite !lookup_insert_ne by done. rewrite !lookup_overwrite.
    rewrite lookup_insert_ne by done. rewrite lookup_overwrite.
    destruct (v !! k); [|done]. by destruct (data !! k).
Qed.

(** X9.  Replaying a message that was merged changes nothing but the time
    stamp: the second update gives the table one update at the later time
    gives, and with the same stamp it gives the table back. *)
Theorem update_table_validator_replay table m s1 s2 t1 :
  update_table_validator table m s1 = (t1, None) →
  update_table_validator t1 m s2 = update_table_validator table m s2.
Proof.
  unfold update_table_validator. destruct (msg_data m) as [data|]; [|done].
  revert t1. induction table as [|v table IH]; intros t1; simpl.
  - by intros [= <-].
  - destruct (matches data v) as [e|hit] eqn:Hv; [done|].
    destruct (update_loop data s1 table) as [rest r] eqn:Hrest.
    intros [= <- ->]. simpl.
    specialize (IH rest eq_refl).
    destruct hit.
    + rewrite (matches_after_update data s1 v Hv), IH, update_validator_again.
      done.
    + by rewrite Hv, IH.
Qed.

Lemma update_table_validator_replay_witness :
  let m := vote "M1" "S1" 101 in
  let t1 := fst (update_table_validator roster m "t1") in
  update_table_validator t1 m "t1" = (t1, None).
Proof.
  intros m t1.
  refine (eq_trans (update_table_validator_replay roster m "t1" "t1" t1 _) _).
  - vm_compute. reflexivity.
  - vm_compute. reflexivity.
Defined.

End MergeExtras.

(** ** clean_validations, process_validations and check_validations *)

Module HandlerExtras.
Import Validation LogFacts MergeFacts HandlerFacts DedupFacts Fixtures.

Lemma Forall_sublist {A} (P : A → Prop) (l k : list A) :
  sublist l k → Forall P k → Forall P l.
Proof.
  induction 1 as [|x l k _ IH|x l k _ IH]; intros Hk; [done | |];
    apply Forall_cons in Hk as [Hx Hk]; [constructor|]; auto.
Qed.

Lemma del_prefix_suffix {A} (k : Z) (l : list A) : del_prefix k l `suffix_of` l.
Proof. unfold del_prefix. case_bool_decide; apply suffix_drop. Qed.

(** What [clean_validations] raises: the [OverflowError] of line 113, with
    the three objects as they were handed over. *)
Lemma clean_validations_raises cfg s e :
  snd (clean_validations cfg s) = Some e →
  e = OtherException "OverflowError"
  ∧ half (PROCESSED_VAL_MAX cfg) = inl e
  ∧ fst (clean_validations cfg s) = s.
Proof.
  unfold clean_validations. case_bool_decide; [|done].
  destruct (half (PROCESSED_VAL_MAX cfg)) as [e'|h] eqn:Hhalf.
  - simpl. intros [= <-]. split; [|done].
    revert Hhalf. unfold half. case_bool_decide; [done|].
    case_bool_decide; [|done]. by intros [= <-].
  - destruct (REMOVE_DUP_VALIDATORS cfg); [|done].
    by destruct (del_dup_validators (table_validator s)).
Qed.

(** The table [clean_validations] leaves is a sublist of the table it was
    given, and the very table unless [REMOVE_DUP_VALIDATORS] is set. *)
Lemma clean_validations_table cfg s :
  sublist (table_validator (fst (clean_validations cfg s))) (table_validator s)
  ∧ (REMOVE_DUP_VALIDATORS cfg = false →
     val_keys (fst (clean_validations cfg s)) = val_keys s
     ∧ table_validator (fst (clean_validations cfg s)) = table_validator s).
Proof.
  unfold clean_validations. case_bool_decide; [|done].
  destruct (half (PROCESSED_VAL_MAX cfg)) as [e|h]; [done|].
  destruct (REMOVE_DUP_VALIDATORS cfg); [|done].
  unfold del_dup_validators.
  destruct (del_dup_loop_kept (table_validator s) [] []) as (kept & -> & Hsub & _).
  { intros i j x y Hi. by rewrite lookup_nil in Hi. }
  simpl. split; [done | discriminate].
Qed.

Lemma clean_log_suffix cfg (log : list value) : clean_log cfg log `suffix_of` log.
Proof.
  unfold clean_log. case_bool_decide; [|done].
  destruct (half (PROCESSED_VAL_MAX cfg)); [done | apply del_prefix_suffix].
Qed.

(** The two ways a call of [check_validations] goes: it leaves everything
    as it is, raising at most for a missing [data], [signature] or
    [server_url]; or it runs the update, and then either stops at the
    update's [KeyError] or appends the signature and cleans. *)
Lemma check_validations_cases cfg s m stamp :
  (fst (check_validations cfg s m stamp) = s
   ∧ (snd (check_validations cfg s m stamp) = None
      ∨ snd (check_validations cfg s m stamp) = Some (KeyError "data")
      ∨ snd (check_validations cfg s m stamp) = Some (KeyError "signature")
      ∨ snd (check_validations cfg s m stamp) = Some (KeyError "server_url")))
  ∨ ∃ data sig,
      msg_data m = Some data ∧ data !! "signature" = Some sig
      ∧ ((∃ e, snd (update_loop data stamp (table_validator s)) = Some e
               ∧ check_validations cfg s m stamp
                 = (VState (val_keys s)
                           (fst (update_loop data stamp (table_validator s)))
                           (processed_validations s),
                    Some e))
         ∨ (snd (update_loop data stamp (table_validator s)) = None
            ∧ check_validations cfg s m stamp
              = clean_validations cfg
                  (VState (val_keys s)
                          (fst (update_loop data stamp (table_validator s)))
                          (processed_validations s ++ [sig])))).
Proof.
  unfold check_validations, subscript.
  destruct (msg_data m) as [data|] eqn:Hdata; [|left; auto].
  destruct (in_scope (val_keys s) data).
  - destruct (data !! "signature") as [sig|] eqn:Hsig; [|left; auto 6].
    destruct (py_in sig (processed_validations s)); [left; auto|]. simpl.
    unfold process_validations, update_table_validator, subscript.
    destruct (msg_server_url m); [|left; auto 6].
    rewrite Hdata, Hsig.
    destruct (update_loop data stamp (table_validator s)) as [table [e|]] eqn:Hloop;
      right; exists data, sig; rewrite ?Hloop; simpl; eauto 8.
  - destruct (msg_server_url m); left; auto 6.
Qed.

(** What [check_validations] raises is a [KeyError] or the
    [OverflowError] of line 113. *)
Lemma check_validations_raises_cases cfg s m stamp e :
  snd (check_validations cfg s m stamp) = Some e →
  (∃ k, e = KeyError k)
  ∨ (e = OtherException "OverflowError" ∧ half (PROCESSED_VAL_MAX cfg) = inl e).
Proof.
  intros Hraise.
  destruct (check_validations_cases cfg s m stamp)
    as [[_ Hr] | (data & sig & _ & _ & [(e' & Hloop & Hcheck) | (_ & Hcheck)])].
  - rewrite Hraise in Hr. left.
    destruct Hr as [? | [[= ->] | [[= ->] | [= ->]]]]; [done | eauto ..].
  - rewrite Hcheck in Hraise. simpl in Hraise.
    assert (e' = e) as -> by congruence. left.
    destruct (update_loop_raises data stamp (table_validator s) e Hloop) as [-> | ->];
      eauto.
  - rewrite Hcheck in Hraise. right.
    destruct (clean_validations_raises _ _ e Hraise) as (He & Hhalf & _). done.
Qed.

Lemma check_validations_raises_exceptions cfg s m stamp e :
  snd (check_validations cfg s m stamp) = Some e → is_Exception e = true.
Proof.
  intros Hraise.
  by destruct (check_validations_raises_cases cfg s m stamp e Hraise)
    as [[k ->] | [-> _]].
Qed.

(** X10.  [clean_validations] does nothing while the log is shorter than
    the ceiling; it never touches the key set or the table unless
    [REMOVE_DUP_VALIDATORS] is set; what it leaves of the log is always
    a suffix of the log: entries go from the old end only, none is
    reordered or invented; and when it raises it has changed nothing. *)
Theorem clean_validations_frame cfg s :
  (Z.of_nat (length (processed_validations s)) < PROCESSED_VAL_MAX cfg →
   clean_validations cfg s = (s, None))
  ∧ (REMOVE_DUP_VALIDATORS cfg = false →
     val_keys (fst (clean_validations cfg s)) = val_keys s
     ∧ table_validator (fst (clean_validations cfg s)) = table_validator s)
  ∧ processed_validations (fst (clean_validations cfg s))
    `suffix_of` processed_validations s
  ∧ (∀ e, snd (clean_validations cfg s) = Some e →
          fst (clean_validations cfg s) = s).
Proof.
  split; [|split; [|split]].
  - intros Hlen. unfold clean_validations.
    by rewrite bool_decide_eq_false_2 by lia.
  - apply clean_validations_table.
  - rewrite clean_validations_log. apply clean_log_suffix.
  - intros e He. by destruct (clean_validations_raises cfg s e He) as (_ & _ & ?).
Qed.

(** X11.  With a ceiling of 1, 0 or -1 the prune deletes [int(MAX / 2) = 0]
    entries: nothing is ever forgotten, and along any sequence of messages
    the log only extends the log it started from. *)
Theorem small_ceiling_never_prunes cfg s ms :
  -1 ≤ PROCESSED_VAL_MAX cfg ≤ 1 →
  Forall (fun s' => processed_validations s `prefix_of` processed_validations s')
         (feed cfg s ms).
Proof.
  intros Hmax.
  assert (Hclean : ∀ l, clean_log cfg l = l).
  { intros l. unfold clean_log. case_bool_decide; [|done].
    assert (H53 : 1 < 2 ^ 53) by (apply Z.pow_gt_1; lia).
    rewrite half_exact by lia. unfold del_prefix.
    assert (Z.quot (PROCESSED_VAL_MAX cfg) 2 = 0) as ->; [|done].
    destruct (decide (PROCESSED_VAL_MAX cfg = -1)) as [->|]; [done|].
    destruct (decide (PROCESSED_VAL_MAX cfg = 0)) as [->|]; [done|].
    assert (PROCESSED_VAL_MAX cfg = 1) as -> by lia. done. }
  revert s. induction ms as [|[m stamp] ms IH]; intros s; simpl; [constructor|].
  assert (Hstep : processed_validations s
                  `prefix_of` processed_validations (fst (check_validations cfg s m stamp))).
  { destruct (check_validations_log cfg s m stamp) as [-> | [sig ->]]; [done|].
    rewrite Hclean. by apply prefix_app_r. }
  constructor; [done|].
  eapply Forall_impl; [apply IH|]. simpl. intros s' Hs'. by etrans.
Qed.

Lemma small_ceiling_never_prunes_witness :
  let ms := [(vote "M1" "S1" 101, "t1"); (vote "M1" "S2" 102, "t2");
             (vote "M1" "S3" 103, "t3")] in
  Forall (fun s' => [] `prefix_of` processed_validations s')
         (feed (config 0 false) start ms)
  ∧ map processed_validations (feed (config 0 false) start ms)
    = [[VStr "S1"]; [VStr "S1"; VStr "S2"]; [VStr "S1"; VStr "S2"; VStr "S3"]].
Proof.
  split; [|vm_compute; reflexivity].
  apply (small_ceiling_never_prunes (config 0 false) start). simpl. lia.
Defined.

Lemma check_validations_tracked_step cfg s m stamp :
  Forall tracked (table_validator s) →
  Forall tracked (table_validator (fst (check_validations cfg s m stamp))).
Proof.
  intros Hs.
  destruct (check_validations_cases cfg s m stamp)
    as [[-> _] | (data & sig & _ & _ & [(e & _ & ->) | (_ & ->)])]; simpl.
  - done.
  - by apply update_loop_tracked.
  - destruct (update_loop_tracked data stamp (table_validator s) Hs) as [_ Ht].
    destruct (clean_validations_table cfg
                (VState (val_keys s)
                        (fst (update_loop data stamp (table_validator s)))
                        (processed_validations s ++ [sig]))) as [Hsub _].
    by apply (Forall_sublist _ _ _ Hsub).
Qed.

(** X12.  The handler keeps the table well formed: if every record has
    both identity fields before a message, every record has them after it,
    whatever the message and whether or not the call raises; so does every
    state along a sequence of messages. *)
Theorem check_validations_keeps_tracked cfg s ms :
  Forall tracked (table_validator s) →
  Forall (fun s' => Forall tracked (table_validator s')) (feed cfg s ms).
Proof.
  revert s. induction ms as [|[m stamp] ms IH]; intros s Hs; simpl; [constructor|].
  pose proof (check_validations_tracked_step cfg s m stamp Hs) as Hstep.
  constructor; [done|]. by apply IH.
Qed.

Lemma check_validations_keeps_tracked_witness :
  Forall (fun s' => Forall tracked (table_validator s'))
         (feed (config 2 true) start
            [(vote "M1" "S1" 101, "t1"); (vote "M1" "S2" 102, "t2")]).
Proof.
  apply (check_validations_keeps_tracked (config 2 true) start).
  constructor; [|constructor]. split; eexists; vm_compute; reflexivity.
Defined.

(** A message with a payload, a signature and an origin. *)
Definition complete (m : message) : Prop :=
  ∃ data, msg_data m = Some data
          ∧ is_Some (data !! "signature")
          ∧ is_Some (msg_server_url m).

(** X13.  On a well-formed table, and with a ceiling a double can hold,
    the handler never raises for a message that has its payload, signature
    and origin: along any sequence of such messages every call returns. *)
Theorem feed_never_raises cfg ms : ∀ s,
  Z.abs (PROCESSED_VAL_MAX cfg) < 2 ^ 1024 →
  Forall tracked (table_validator s) →
  Forall (fun p => complete (fst p)) ms →
  ∀ (i : nat) s' m stamp,
    (s :: feed cfg s ms) !! i = Some s' →
    ms !! i = Some (m, stamp) →
    snd (check_validations cfg s' m stamp) = None.
Proof.
  induction ms as [|[m0 stamp0] ms IH]; intros s Hmax Hs Hms i s' m stamp Hi Hm;
    [done|].
  apply Forall_cons in Hms as [(data & Hdata & Hsig & Hurl) Hms].
  destruct i as [|i]; simpl in Hi, Hm.
  - injection Hi as <-. injection Hm as <- <-.
    by apply (check_validations_returns cfg s m0 stamp0 data).
  - apply (IH (fst (check_validations cfg s m0 stamp0)) Hmax
              (check_validations_tracked_step cfg s m0 stamp0 Hs) Hms i);
      done.
Qed.

Lemma feed_never_raises_witness :
  let cfg := config 2 true in
  let s1 := fst (check_validations cfg start (vote "M1" "S1" 101) "t1") in
  snd (check_validations cfg s1 (vote "M1" "S2" 102) "t2") = None.
Proof.
  intros cfg s1.
  apply (feed_never_raises cfg
           [(vote "M1" "S1" 101, "t1"); (vote "M1" "S2" 102, "t2")] start)
    with (i := 1%nat).
  - apply Z.lt_trans with (2 ^ 2); [simpl; lia | apply Z.pow_lt_mono_r; lia].
  - constructor; [|constructor]. split; eexists; vm_compute; reflexivity.
  - repeat constructor; eexists; (split; [reflexivity|]);
      split; eexists; vm_compute; reflexivity.
  - reflexivity.
  - reflexivity.
Defined.

Lemma check_validations_shape_step cfg s m stamp :
  (length (table_validator (fst (check_validations cfg s m stamp)))
   ≤ length (table_validator s))%nat
  ∧ (REMOVE_DUP_VALIDATORS cfg = false →
     val_keys (fst (check_validations cfg s m stamp)) = val_keys s
     ∧ length (table_validator (fst (check_validations cfg s m stamp)))
       = length (table_validator s)).
Proof.
  destruct (check_validations_cases cfg s m stamp)
    as [[-> _] | (data & sig & _ & _ & [(e & _ & ->) | (_ & ->)])]; simpl.
  - split; [lia | done].
  - rewrite update_loop_length. split; [lia | done].
  - pose proof (update_loop_length data stamp (table_validator s)) as Hlen.
    destruct (clean_validations_table cfg
                (VState (val_keys s)
                        (fst (update_loop data stamp (table_validator s)))
                        (processed_validations s ++ [sig]))) as [Hsub Hkeep].
    simpl in Hsub, Hkeep. split.
    + apply sublist_length in Hsub. lia.
    + intros Hflag. destruct (Hkeep Hflag) as [-> ->]. done.
Qed.

(** X14.  Without [REMOVE_DUP_VALIDATORS] the handler never changes the key
    set and never removes a record: along any sequence of messages the key
    set is the one it started with and the table keeps its length. *)
Theorem keys_fixed_without_dedup cfg ms : ∀ s,
  REMOVE_DUP_VALIDATORS cfg = false →
  Forall (fun s' => val_keys s' = val_keys s
                    ∧ length (table_validator s') = length (table_validator s))
         (feed cfg s ms).
Proof.
  induction ms as [|[m stamp] ms IH]; intros s Hflag; simpl; [constructor|].
  destruct (check_validations_shape_step cfg s m stamp) as [_ Hstep].
  destruct (Hstep Hflag) as [Hkeys Hlen].
  constructor; [done|].
  eapply Forall_impl; [by apply IH|]. simpl. intros s' [-> ->]. done.
Qed.

Lemma keys_fixed_without_dedup_witness :
  Forall (fun s' => val_keys s' = [VStr "M1"; VStr "E1"]
                    ∧ length (table_validator s') = 1%nat)
         (feed (config 2 false) start
            [(vote "M1" "S1" 101, "t1"); (vote "M1" "S2" 102, "t2");
             (vote "M1" "S3" 103, "t3")]).
Proof.
  apply (keys_fixed_without_dedup (config 2 false)
           [(vote "M1" "S1" 101, "t1"); (vote "M1" "S2" 102, "t2");
            (vote "M1" "S3" 103, "t3")] start).
  reflexivity.
Defined.

(** X15.  The handler never adds a record: along any sequence of messages,
    under any settings, the table is never longer than at the start. *)
Theorem table_never_grows cfg ms : ∀ s,
  Forall (fun s' => (length (table_validator s') ≤ length (table_validator s))%nat)
         (feed cfg s ms).
Proof.
  induction ms as [|[m stamp] ms IH]; intros s; simpl; [constructor|].
  destruct (check_validations_shape_step cfg s m stamp) as [Hstep _].
  constructor; [done|].
  eapply Forall_impl; [apply IH|]. simpl. intros s' Hs'. lia.
Qed.

(** The signature a message carries, if any. *)
Definition signature_of (m : message) : option value :=
  match msg_data m with
  | Some data => data !! "signature"
  | None => None
  end.

Lemma check_validations_log_step cfg s m stamp x :
  x ∈ processed_validations (fst (check_validations cfg s m stamp)) →
  x ∈ processed_validations s ∨ signature_of m = Some x.
Proof.
  unfold signature_of.
  destruct (check_validations_cases cfg s m stamp)
    as [[-> _] | (data & sig & -> & Hsig & [(e & _ & ->) | (_ & ->)])]; simpl;
    [by left | by left |].
  intros Hx.
  rewrite clean_validations_log in Hx. simpl in Hx.
  pose proof (clean_log_suffix cfg (processed_validations s ++ [sig])) as Hsuffix.
  apply (elem_of_suffix _ _ x Hx) in Hsuffix.
  apply elem_of_app in Hsuffix as [H1 | H2]; [by left|].
  apply list_elem_of_singleton in H2 as ->. by right.
Qed.

(** X16.  The handler writes nothing into the log but the signatures it is
    given: every entry of the log, after any sequence of messages, was in the
    log at the start or is the signature of one of the messages. *)
Theorem log_holds_only_signatures cfg ms : ∀ s,
  Forall (fun s' => ∀ x, x ∈ processed_validations s' →
                         x ∈ processed_validations s
                         ∨ ∃ m stamp, (m, stamp) ∈ ms ∧ signature_of m = Some x)
         (feed cfg s ms).
Proof.
  induction ms as [|[m stamp] ms IH]; intros s; simpl; [constructor|].
  constructor.
  - intros x Hx.
    destruct (check_validations_log_step cfg s m stamp x Hx) as [H1 | H2];
      [by left|].
    right. exists m, stamp. split; [by left | done].
  - eapply Forall_impl; [apply IH|]. simpl. intros s' Hs' x Hx.
    destruct (Hs' x Hx) as [H1 | (m' & stamp' & Hin & Hsig)].
    + destruct (check_validations_log_step cfg s m stamp x H1) as [H2 | H3];
        [by left|].
      right. exists m, stamp. split; [by left | done].
    + right. exists m', stamp'. split; [by right | done].
Qed.

(** X17.  Once a dedup pass has met a record without [master_key], [None]
    is a tracked key, and every message without a [master_key] passes the
    scope filter, whatever else it carries. *)
Theorem keyless_messages_in_scope_after_dedup table v data :
  v ∈ table →
  get v "master_key" = VNone →
  data !! "master_key" = None →
  in_scope (fst (del_dup_validators table)) data = true.
Proof.
  intros Hv Hnone Hdata. unfold in_scope, get at 1. rewrite Hdata. simpl.
  destruct (DedupExtras.del_dup_loop_covers table [] []) as [_ Hcover].
  specialize (Hcover v Hv). unfold master_key_of in Hcover.
  rewrite Hnone in Hcover. unfold del_dup_validators. by rewrite Hcover.
Qed.

Lemma keyless_messages_in_scope_after_dedup_witness :
  in_scope (fst (del_dup_validators
                   [record (VStr "M1") (VStr "E1") 1; record VNone (VStr "E2") 2]))
           (list_to_map [("signature", VStr "S7"); ("ledger_index", VInt 7)])
  = true.
Proof.
  apply (keyless_messages_in_scope_after_dedup
           [record (VStr "M1") (VStr "E1") 1; record VNone (VStr "E2") 2]
           (record VNone (VStr "E2") 2)).
  - right. left.
  - vm_compute. reflexivity.
  - vm_compute. reflexivity.
Defined.

(** X18.  [check_validations] raises nothing but [KeyError] and the
    [OverflowError] of line 113.  For a missing [data], [signature] or
    [server_url] it raises before it has changed anything.  A [KeyError]
    that names [master_key] or [validation_public_key] comes from a record
    of the table that lacks that field, and leaves the key set and the log
    as they were: only records of the table may have been merged.  The
    [OverflowError] needs a ceiling no double can hold and comes after the
    merge and the insertion, which both stay. *)
Theorem check_validations_raises cfg s m stamp e :
  snd (check_validations cfg s m stamp) = Some e →
  ((e = KeyError "data" ∨ e = KeyError "signature" ∨ e = KeyError "server_url")
   ∧ fst (check_validations cfg s m stamp) = s)
  ∨ ((e = KeyError "master_key" ∨ e = KeyError "validation_public_key")
     ∧ ¬ Forall tracked (table_validator s)
     ∧ val_keys (fst (check_validations cfg s m stamp)) = val_keys s
     ∧ processed_validations (fst (check_validations cfg s m stamp))
       = processed_validations s)
  ∨ (e = OtherException "OverflowError"
     ∧ 2 ^ 1024 ≤ Z.abs (PROCESSED_VAL_MAX cfg)
     ∧ ∃ data sig,
         msg_data m = Some data
         ∧ data !! "signature" = Some sig
         ∧ snd (update_loop data stamp (table_validator s)) = None
         ∧ fst (check_validations cfg s m stamp)
           = VState (val_keys s)
                    (fst (update_loop data stamp (table_validator s)))
                    (processed_validations s ++ [sig])).
Proof.
  intros Hraise.
  destruct (check_validations_cases cfg s m stamp)
    as [[Hs Hr] | (data & sig & Hdata & Hsig & [(e' & Hloop & Hcheck) | (Hloop & Hcheck)])].
  - left. split; [|done]. rewrite Hraise in Hr.
    destruct Hr as [? | [[= ->] | [[= ->] | [= ->]]]]; [done | auto ..].
  - rewrite Hcheck in Hraise |- *. simpl in *. injection Hraise as ->.
    right. left.
    split; [by apply (update_loop_raises data stamp (table_validator s))|].
    split; [|done]. intros Htracked.
    destruct (update_loop_tracked data stamp (table_validator s) Htracked) as [Hret _].
    congruence.
  - rewrite Hcheck in Hraise |- *.
    destruct (clean_validations_raises _ _ e Hraise) as (-> & Hhalf & ->).
    right. right. split; [done|]. split.
    + destruct (Z_lt_le_dec (Z.abs (PROCESSED_VAL_MAX cfg)) (2 ^ 1024)) as [Hsmall|]; [|done].
      destruct (half_returns _ Hsmall) as [h Hh]. congruence.
    + exists data, sig. done.
Qed.

Lemma check_validations_raises_witness :
  let bare : message :=
    Message (Some (list_to_map [("master_key", VStr "M1")])) (Some (VStr "wss://s1")) in
  let cfg := config (- 10 ^ 400) false in
  (snd (check_validations (config 4 true) start bare "t1") = Some (KeyError "signature")
   ∧ fst (check_validations (config 4 true) start bare "t1") = start)
  ∧ snd (check_validations cfg start (vote "M1" "S1" 101) "t1")
    = Some (OtherException "OverflowError")
  ∧ processed_validations (fst (check_validations cfg start (vote "M1" "S1" 101) "t1"))
    = [VStr "S1"]
  ∧ map (fun v => (get v "ledger_index", get v "time_updated"))
        (table_validator (fst (check_validations cfg start (vote "M1" "S1" 101) "t1")))
    = [(VInt 101, VStr "t1")].
Proof.
  intros bare cfg.
  assert (Hraise : snd (check_validations (config 4 true) start bare "t1")
                   = Some (KeyError "signature")) by (vm_compute; reflexivity).
  split; [|split; [|split]; vm_compute; reflexivity].
  split; [exact Hraise|].
  destruct (check_validations_raises (config 4 true) start bare "t1"
              (KeyError "signature") Hraise) as [[_ Hs] | [[[[=] | [=]] _] | [[=] _]]].
  exact Hs.
Defined.

End HandlerExtras.

(** ** format_table_validation and print_table_validation *)

Module RenderingExtras.
Import Rendering Fixtures ProcessorFixtures.

Section Extras.
Context `{Collaborators}.

(** The fields of a record that the console table reads: those of its
    eleven columns, and [validated_hash], which is shortened and not shown. *)
Definition fields : list string := "validated_hash" :: columns.

(** A record the console table can show. *)
Definition printable (validator : dict) : Prop :=
  Forall (fun k => is_Some (validator !! k)) fields.

(** [decode_version] returns for every string. *)
Definition decoder_returns : Prop := ∀ s, ∃ d, decode_version s = inr d.

Definition same_fields (v v' : dict) : Prop :=
  ∀ k, is_Some (v' !! k) ↔ is_Some (v !! k).

(** A formatting step that reads the fields [keys] and writes no other:
    it returns only when the record has them, raises [KeyError] only for
    one the record lacks, or else what the decoder raised. *)
Definition reads (keys : list string) (f : dict → exn + dict) : Prop :=
  (∀ v v', f v = inr v' →
           Forall (fun k => is_Some (v !! k)) keys ∧ same_fields v v')
  ∧ (∀ v e, f v = inl e →
            (∃ k, k ∈ keys ∧ e = KeyError k ∧ v !! k = None)
            ∨ ∃ s, decode_version s = inl e)
  ∧ (∀ v, Forall (fun k => is_Some (v !! k)) keys → decoder_returns →
          ∃ v', f v = inr v').

Lemma same_fields_refl v : same_fields v v.
Proof. by intros k. Qed.

Lemma same_fields_insert (v : dict) key x :
  is_Some (v !! key) → same_fields v (<[key := x]> v).
Proof.
  intros Hkey k. destruct (decide (key = k)) as [<-|Hne].
  - rewrite lookup_insert_eq. split; [done | eauto].
  - by rewrite lookup_insert_ne.
Qed.

Lemma same_fields_none (v v' : dict) k :
  same_fields v v' → v' !! k = None → v !! k = None.
Proof.
  intros Hsame Hnone. apply eq_None_not_Some. intros Hsome.
  apply Hsame in Hsome. rewrite Hnone in Hsome. by destruct Hsome.
Qed.

Lemma reads_shorten key : reads [key] (shorten key).
Proof.
  unfold shorten. split; [|split].
  - intros v v'. destruct (v !! key) as [x|] eqn:Hkey; [|done].
    assert (Hsome : is_Some (v !! key)) by (rewrite Hkey; eauto).
    destruct x; intros [= <-];
      (split; [by constructor | try apply same_fields_refl]).
    by apply same_fields_insert.
  - intros v e. destruct (v !! key) as [x|] eqn:Hkey.
    + by destruct x.
    + intros [= <-]. left. exists key. split; [by left | done].
  - intros v [[x Hkey] _]%Forall_cons _. rewrite Hkey. destruct x; eauto.
Qed.

Lemma reads_color_forked : reads ["forked"] color_forked.
Proof.
  unfold color_forked. split; [|split].
  - intros v v'. destruct (v !! "forked") as [x|] eqn:Hkey; [|done].
    intros [= <-]. split; [constructor; [eauto | constructor]|].
    apply same_fields_insert. rewrite Hkey. eauto.
  - intros v e. destruct (v !! "forked") as [x|] eqn:Hkey; [done|].
    intros [= <-]. left. exists "forked". split; [by left | done].
  - intros v [[x Hkey] _]%Forall_cons _. rewrite Hkey. eauto.
Qed.

Lemma reads_color_full : reads ["full"] color_full.
Proof.
  unfold color_full. split; [|split].
  - intros v v'. destruct (v !! "full") as [x|] eqn:Hkey; [|done].
    intros [= <-]. split; [constructor; [eauto | constructor]|].
    apply same_fields_insert. rewrite Hkey. eauto.
  - intros v e. destruct (v !! "full") as [x|] eqn:Hkey; [done|].
    intros [= <-]. left. exists "full". split; [by left | done].
  - intros v [[x Hkey] _]%Forall_cons _. rewrite Hkey. eauto.
Qed.

Lemma reads_show_version : reads ["server_version"] show_version.
Proof.
  unfold show_version. split; [|split].
  - intros v v'. destruct (v !! "server_version") as [x|] eqn:Hkey; [|done].
    assert (Hsome : is_Some (v !! "server_version")) by (rewrite Hkey; eauto).
    destruct x as [|b|n|s]; try (intros [= <-]; split;
                                 [by constructor | apply same_fields_refl]).
    destruct (isdigit s);
      [|intros [= <-]; split; [by constructor | apply same_fields_refl]].
    destruct (decode_version s) as [e|d]; [done|].
    intros [= <-]. split; [by constructor | by apply same_fields_insert].
  - intros v e. destruct (v !! "server_version") as [x|] eqn:Hkey.
    + destruct x as [|b|n|s]; try done.
      destruct (isdigit s); [|done].
      destruct (decode_version s) as [e'|d] eqn:Hdecode; [|done].
      intros [= <-]. right. eauto.
    + intros [= <-]. left. exists "server_version". split; [by left | done].
  - intros v [[x Hkey] _]%Forall_cons Hdecoder. rewrite Hkey.
    destruct x as [|b|n|s]; eauto.
    destruct (isdigit s); eauto.
    destruct (Hdecoder s) as [d ->]. eauto.
Qed.

Lemma reads_then_do keys1 keys2 f g :
  reads keys1 f → reads keys2 g → reads (keys1 ++ keys2) (then_do f g).
Proof.
  intros (Hf_inr & Hf_inl & Hf_run) (Hg_inr & Hg_inl & Hg_run).
  unfold then_do. split; [|split].
  - intros v v''. destruct (f v) as [e|v'] eqn:Hf; [done|]. intros Hg.
    destruct (Hf_inr v v' Hf) as [Hk1 Hs1].
    destruct (Hg_inr v' v'' Hg) as [Hk2 Hs2].
    split.
    + apply Forall_app. split; [done|].
      eapply Forall_impl; [exact Hk2|]. intros k Hk. by apply Hs1.
    + intros k. etrans; [apply Hs2 | apply Hs1].
  - intros v e. destruct (f v) as [e'|v'] eqn:Hf.
    + intros [= <-].
      destruct (Hf_inl v e' Hf) as [(k & Hk & He & Hnone) | Hdecode]; [|by right].
      left. exists k. split; [|done]. apply elem_of_app. by left.
    + intros Hg. destruct (Hf_inr v v' Hf) as [_ Hs1].
      destruct (Hg_inl v' e Hg) as [(k & Hk & He & Hnone) | Hdecode]; [|by right].
      left. exists k. split; [apply elem_of_app; by right|].
      split; [done|]. by apply (same_fields_none v v').
  - intros v [Hk1 Hk2]%Forall_app Hdecoder.
    destruct (Hf_run v Hk1 Hdecoder) as [v' Hf]. rewrite Hf.
    destruct (Hf_inr v v' Hf) as [_ Hs1].
    apply Hg_run; [|done].
    eapply Forall_impl; [exact Hk2|]. intros k Hk. by apply Hs1.
Qed.

(** The fields [format_validator] reads, in the order it reads them. *)
Definition formatted : list string :=
  ["master_key"; "validation_public_key"; "ledger_hash"; "validated_hash";
   "forked"; "full"; "server_version"].

Lemma reads_format_validator : reads formatted format_validator.
Proof.
  unfold format_validator.
  apply (reads_then_do ["master_key"]); [apply reads_shorten|].
  apply (reads_then_do ["validation_public_key"]); [apply reads_shorten|].
  apply (reads_then_do ["ledger_hash"]); [apply reads_shorten|].
  apply (reads_then_do ["validated_hash"]); [apply reads_shorten|].
  apply (reads_then_do ["forked"]); [apply reads_color_forked|].
  apply (reads_then_do ["full"]); [apply reads_color_full|].
  apply reads_show_version.
Qed.

Lemma formatted_fields k : k ∈ formatted → k ∈ fields.
Proof.
  unfold formatted, fields, columns. rewrite !elem_of_cons, !elem_of_nil.
  intros Hk. repeat destruct Hk as [->|Hk]; tauto.
Qed.

Lemma columns_fields k : k ∈ columns → k ∈ fields.
Proof. intros Hk. by right. Qed.

Lemma fields_cases k : k ∈ fields → k ∈ formatted ∨ k ∈ columns.
Proof.
  unfold fields. intros [->|Hk]%elem_of_cons; [left|by right].
  unfold formatted. rewrite !elem_of_cons. tauto.
Qed.

Lemma for_each_inl {A B} (f : A → exn + B) l e :
  for_each f l = inl e → ∃ x, x ∈ l ∧ f x = inl e.
Proof.
  induction l as [|x l IH]; simpl; [done|].
  destruct (f x) as [e'|y] eqn:Hx.
  - intros [= <-]. exists x. split; [by left | done].
  - destruct (for_each f l) as [e'|ys]; [|done].
    intros [= <-]. destruct (IH eq_refl) as (x' & Hin & Hx').
    exists x'. split; [by right | done].
Qed.

Lemma for_each_inr {A B} (f : A → exn + B) l ys :
  for_each f l = inr ys → Forall2 (fun x y => f x = inr y) l ys.
Proof.
  revert ys. induction l as [|x l IH]; intros ys; simpl.
  - intros [= <-]. constructor.
  - destruct (f x) as [e|y] eqn:Hx; [done|].
    destruct (for_each f l) as [e|ys']; [done|].
    intros [= <-]. constructor; [done | by apply IH].
Qed.

Lemma for_each_returns {A B} (f : A → exn + B) l :
  Forall (fun x => ∃ y, f x = inr y) l → ∃ ys, for_each f l = inr ys.
Proof.
  induction 1 as [|x l [y Hx] _ [ys IH]]; simpl; [eauto|].
  rewrite Hx, IH. eauto.
Qed.

(** Every record of the table is printable exactly when each has all
    twelve fields. *)
Lemma printable_lookup v : printable v ↔ ∀ k, k ∈ fields → is_Some (v !! k).
Proof. apply Forall_forall. Qed.

Lemma format_validator_printable v v' :
  format_validator v = inr v' →
  Forall (fun k => is_Some (v' !! k)) columns →
  printable v.
Proof.
  intros Hformat Hrow.
  destruct reads_format_validator as (Hinr & _ & _).
  destruct (Hinr v v' Hformat) as [Hkeys Hsame].
  apply printable_lookup. intros k [Hk | Hk]%fields_cases.
  - by apply (proj1 (Forall_forall _ _) Hkeys).
  - apply Hsame. by apply (proj1 (Forall_forall _ _) Hrow).
Qed.

(** When [print_table_validation] returns, every record has the twelve
    fields, and there is one row of eleven cells for each record. *)
Lemma print_table_validation_returned table rows :
  print_table_validation table = inr rows →
  Forall printable table
  ∧ length rows = length table
  ∧ Forall (fun row => length row = 11%nat) rows.
Proof.
  destruct reads_format_validator as (Hinr & _ & _).
  unfold print_table_validation, format_table_validation.
  destruct (for_each format_validator table) as [e|table_new] eqn:Hformat; [done|].
  intros Hrows.
  apply for_each_inr in Hformat. apply for_each_inr in Hrows.
  split; [|split].
  - apply Forall_forall. intros v Hv.
    apply list_elem_of_lookup_1 in Hv as [i Hi].
    destruct (Forall2_lookup_l _ _ _ _ _ Hformat Hi) as (v' & Hi' & Hv').
    destruct (Forall2_lookup_l _ _ _ _ _ Hrows Hi') as (row & _ & Hrow).
    apply (format_validator_printable v v' Hv').
    apply for_each_inr in Hrow. apply Forall_forall. intros k Hk.
    apply list_elem_of_lookup_1 in Hk as [j Hj].
    destruct (Forall2_lookup_l _ _ _ _ _ Hrow Hj) as (x & _ & Hx).
    revert Hx. unfold subscript. destruct (v' !! k); [eauto | done].
  - apply Forall2_length in Hformat. apply Forall2_length in Hrows. lia.
  - apply Forall_forall. intros row Hrow.
    apply list_elem_of_lookup_1 in Hrow as [i Hi].
    destruct (Forall2_lookup_r _ _ _ _ _ Hrows Hi) as (v' & _ & Hv').
    apply for_each_inr, Forall2_length in Hv'. by rewrite <- Hv'.
Qed.

(** What [print_table_validation] raises: the [KeyError] of a field some
    record lacks, or what [decode_version] raised. *)
Lemma print_table_validation_raised table e :
  print_table_validation table = inl e →
  (∃ k v, e = KeyError k ∧ k ∈ fields ∧ v ∈ table ∧ v !! k = None)
  ∨ ∃ s, decode_version s = inl e.
Proof.
  destruct reads_format_validator as (Hinr & Hinl & _).
  unfold print_table_validation, format_table_validation.
  destruct (for_each format_validator table) as [e'|table_new] eqn:Hformat.
  - intros [= <-]. apply for_each_inl in Hformat as (v & Hv & Hraise).
    destruct (Hinl v e' Hraise) as [(k & Hk & -> & Hnone) | Hdecode]; [|by right].
    left. exists k, v. split; [done|]. split; [by apply formatted_fields | done].
  - intros Hrows. apply for_each_inl in Hrows as (v' & Hv' & Hraise).
    apply for_each_inl in Hraise as (k & Hk & Hraise).
    apply for_each_inr in Hformat.
    apply list_elem_of_lookup_1 in Hv' as [i Hi'].
    destruct (Forall2_lookup_r _ _ _ _ _ Hformat Hi') as (v & Hi & Hv).
    destruct (Hinr v v' Hv) as [_ Hsame].
    revert Hraise. unfold subscript. destruct (v' !! k) eqn:Hnone; [done|].
    intros [= <-]. left. exists k, v. split; [done|].
    split; [by apply columns_fields|].
    split; [by apply list_elem_of_lookup_2 in Hi|].
    by apply (same_fields_none v v').
Qed.

(** [print_table_validation] returns when every record has the twelve
    fields and the decoder returns. *)
Lemma print_table_validation_returns table :
  Forall printable table → decoder_returns →
  ∃ rows, print_table_validation table = inr rows.
Proof.
  destruct reads_format_validator as (Hinr & _ & Hrun).
  unfold print_table_validation, format_table_validation.
  intros Hprintable Hdecoder.
  destruct (for_each_returns format_validator table) as [table_new Hformat].
  { eapply Forall_impl; [exact Hprintable|]. intros v Hv.
    apply Hrun; [|done]. apply Forall_forall. intros k Hk.
    by apply (proj1 (printable_lookup v) Hv), formatted_fields. }
  rewrite Hformat. apply for_each_returns.
  apply for_each_inr in Hformat. apply Forall_forall. intros v' Hv'.
  apply list_elem_of_lookup_1 in Hv' as [i Hi'].
  destruct (Forall2_lookup_r _ _ _ _ _ Hformat Hi') as (v & Hi & Hv).
  destruct (Hinr v v' Hv) as [_ Hsame].
  apply list_elem_of_lookup_2 in Hi.
  pose proof (proj1 (Forall_forall _ _) Hprintable v Hi) as Hfields.
  apply for_each_returns. apply Forall_forall. intros k Hk.
  unfold subscript.
  destruct (proj2 (Hsame k)) as [x ->]; [|eauto].
  by apply (proj1 (printable_lookup v) Hfields), columns_fields.
Qed.

(** X29.  What the console table needs and what it gives.  When
    [print_table_validation] returns, every record of the table has all
    twelve fields the table reads (those of the eleven columns and
    [validated_hash]), and there is one row of eleven cells for each record.
    When it raises, the error is the [KeyError] of one of these fields,
    which some record lacks, or what [decode_version] raised.  And when
    every record has the twelve fields and [decode_version] returns, it
    returns. *)
Theorem print_table_validation_needs_fields table :
  (∀ rows, print_table_validation table = inr rows →
           Forall printable table
           ∧ length rows = length table
           ∧ Forall (fun row => length row = 11%nat) rows)
  ∧ (∀ e, print_table_validation table = inl e →
          (∃ k v, e = KeyError k ∧ k ∈ fields ∧ v ∈ table ∧ v !! k = None)
          ∨ ∃ s, decode_version s = inl e)
  ∧ (Forall printable table → decoder_returns →
     ∃ rows, print_table_validation table = inr rows).
Proof.
  split; [|split].
  - apply print_table_validation_returned.
  - apply print_table_validation_raised.
  - apply print_table_validation_returns.
Qed.

End Extras.

Lemma print_table_validation_needs_fields_witness :
  @print_table_validation quiet roster = inl (KeyError "ledger_hash")
  ∧ (∃ rows, @print_table_validation quiet complete_roster = inr rows)
  ∧ @print_table_validation quiet complete_roster
    = inr [[VStr "validator"; VStr "M1"; VStr "E1"; VStr "rippled-1745990400";
            VInt 10; VInt 256; VStr "ABCDE"; VInt 100;
            VStr (green +:+ "True" +:+ color_reset);
            VStr (green +:+ "False" +:+ color_reset); VNone]].
Proof.
  split; [vm_compute; reflexivity|]. split; [|vm_compute; reflexivity].
  apply (proj2 (proj2 (@print_table_validation_needs_fields quiet complete_roster))).
  - constructor; [|constructor].
    apply Forall_forall. intros k Hk. unfold fields, columns in Hk.
    rewrite !elem_of_cons, elem_of_nil in Hk.
    repeat destruct Hk as [->|Hk]; try (eexists; vm_compute; reflexivity). done.
  - intros s. eexists. reflexivity.
Defined.

End RenderingExtras.

(** ** The processor: setup, dispatch, triggers and loop *)

Module ProcessorExtras.
Import Processor Fixtures ProcessorFixtures ProcessorFacts.

(** Values equal under [==] are true or false together. *)
Lemma py_eq_truthy (x y : value) : py_eq x y = true → truthy x = truthy y.
Proof.
  destruct x as [|a|a|a], y as [|b|b|b]; simpl; try done;
    rewrite bool_decide_eq_true; intros Hab;
    repeat match goal with c : bool |- _ => destruct c end; simpl in *;
    repeat case_bool_decide; simplify_eq; try done; try lia.
Qed.

Lemma py_in_true (x : value) (l : list value) :
  py_in x l = true ↔ ∃ y, y ∈ l ∧ py_eq x y = true.
Proof.
  unfold py_in. rewrite existsb_exists. setoid_rewrite <- list_elem_of_In. done.
Qed.

Section Extras.
Context `{Collaborators}.

Lemma generate_val_keys_members_aux self x :
  x ∈ val_keys (fst (generate_val_keys self))
  ↔ x ∈ val_keys self
    ∨ (truthy x = true
       ∧ ∃ v, v ∈ table_validator self
              ∧ (x = get v "master_key" ∨ x = get v "validation_public_key")).
Proof.
  unfold generate_val_keys. simpl.
  rewrite elem_of_app, list_elem_of_filter, elem_of_app.
  change (map (fun i => get i "master_key") (table_validator self))
    with ((fun i => get i "master_key") <$> table_validator self).
  change (map (fun i => get i "validation_public_key") (table_validator self))
    with ((fun i => get i "validation_public_key") <$> table_validator self).
  rewrite !list_elem_of_fmap. split.
  - intros [?|[Ht [(v & -> & Hv) | (v & -> & Hv)]]].
    + by left.
    + right. split; [done|]. exists v. auto.
    + right. split; [done|]. exists v. auto.
  - intros [?|[Ht (v & Hv & [-> | ->])]].
    + by left.
    + right. split; [done|]. left. exists v. auto.
    + right. split; [done|]. right. exists v. auto.
Qed.

(** X19.  [generate_val_keys] keeps the keys already listed and appends the
    [master_key] and then the [validation_public_key] values of the table
    that are true values: [None], the empty string and the like are left
    out, and nothing else comes in. *)
Theorem generate_val_keys_members self x :
  x ∈ val_keys (fst (generate_val_keys self))
  ↔ x ∈ val_keys self
    ∨ (truthy x = true
       ∧ ∃ v, v ∈ table_validator self
              ∧ (x = get v "master_key" ∨ x = get v "validation_public_key")).
Proof.
  unfold generate_val_keys. simpl.
  rewrite elem_of_app, list_elem_of_filter, elem_of_app.
  change (map (fun i => get i "master_key") (table_validator self))
    with ((fun i => get i "master_key") <$> table_validator self).
  change (map (fun i => get i "validation_public_key") (table_validator self))
    with ((fun i => get i "validation_public_key") <$> table_validator self).
  rewrite !list_elem_of_fmap. split.
  - intros [?|[Ht [(v & -> & Hv) | (v & -> & Hv)]]].
    + by left.
    + right. split; [done|]. exists v. auto.
    + right. split; [done|]. exists v. auto.
  - intros [?|[Ht (v & Hv & [-> | ->])]].
    + by left.
    + right. split; [done|]. left. exists v. auto.
    + right. split; [done|]. right. exists v. auto.
Qed.

(** X20.  After the setup of [process_messages] on a fresh processor the
    table is the roster, the server records have lost their
    [ws_connection_task] and nothing else, and the scope filter accepts a
    message that carries the true [master_key] or [validation_public_key]
    of a roster record, and rejects every message whose two keys are both
    absent or false. *)
Theorem setup_scope stock roster now :
  let self := fst (setup stock roster (init now)) in
  snd (setup stock roster (init now)) = None
  ∧ table_validator self = roster
  ∧ table_stock self = map (delete "ws_connection_task") stock
  ∧ (∀ v data, v ∈ roster → truthy (get v "master_key") = true →
               get data "master_key" = get v "master_key" →
               Validation.in_scope (val_keys self) data = true)
  ∧ (∀ v data, v ∈ roster → truthy (get v "validation_public_key") = true →
               get data "validation_public_key" = get v "validation_public_key" →
               Validation.in_scope (val_keys self) data = true)
  ∧ (∀ data, truthy (get data "master_key") = false →
             truthy (get data "validation_public_key") = false →
             Validation.in_scope (val_keys self) data = false).
Proof.
  intros self.
  assert (Hkeys : ∀ x, x ∈ val_keys self
                       ↔ truthy x = true
                         ∧ ∃ v, v ∈ roster
                                ∧ (x = get v "master_key"
                                   ∨ x = get v "validation_public_key")).
  { intros x.
    change (val_keys self)
      with (val_keys (fst (generate_val_keys
              (set_table_validator roster
                 (set_table_stock (map (delete "ws_connection_task") stock)
                    (init now)))))).
    rewrite generate_val_keys_members_aux. simpl. rewrite elem_of_nil.
    split; [intros [[]|?]; done | by right]. }
  split; [done|]. split; [done|]. split; [done|].
  split; [|split].
  - intros v data Hv Htrue Hsame. unfold Validation.in_scope.
    assert (py_in (get data "master_key") (val_keys self) = true) as ->; [|done].
    apply py_in_true. exists (get v "master_key"). split.
    + apply Hkeys. eauto.
    + rewrite Hsame. apply py_eq_refl.
  - intros v data Hv Htrue Hsame. unfold Validation.in_scope.
    assert (py_in (get data "validation_public_key") (val_keys self) = true) as ->.
    { apply py_in_true. exists (get v "validation_public_key"). split.
      - apply Hkeys. eauto.
      - rewrite Hsame. apply py_eq_refl. }
    rewrite Hsame, Htrue. apply orb_true_r.
  - intros data Hmk Hvpk. unfold Validation.in_scope. rewrite Hvpk, andb_false_r.
    rewrite orb_false_r.
    destruct (py_in (get data "master_key") (val_keys self)) eqn:Hin; [|done].
    apply py_in_true in Hin as (y & Hy & Heq).
    apply Hkeys in Hy as [Hy _]. apply py_eq_truthy in Heq. congruence.
Qed.

(** *** Dispatch *)

(** X21.  Dispatch is separate from the triggers and the handlers from each
    other: [sort_new_messages] never changes a trigger's time stamp or the
    network modes; a message that is not handed to the validation handler
    leaves the key set, the validator table and the signature log as they
    are; a validation message leaves the server table and the outbound
    queue as they are. *)
Theorem sort_new_messages_separation cfg now m data self :
  msg_data m = Some data →
  (time_fork_check (fst (sort_new_messages cfg now m self)) = time_fork_check self
   ∧ time_last_output (fst (sort_new_messages cfg now m self)) = time_last_output self
   ∧ last_heartbeat (fst (sort_new_messages cfg now m self)) = last_heartbeat self
   ∧ ll_modes (fst (sort_new_messages cfg now m self)) = ll_modes self)
  ∧ (is_Some (data !! "result")
     ∨ data !! "type" ≠ Some (VStr "validationReceived") →
     val_keys (fst (sort_new_messages cfg now m self)) = val_keys self
     ∧ table_validator (fst (sort_new_messages cfg now m self)) = table_validator self
     ∧ processed_validations (fst (sort_new_messages cfg now m self))
       = processed_validations self)
  ∧ (data !! "result" = None →
     data !! "type" = Some (VStr "validationReceived") →
     table_stock (fst (sort_new_messages cfg now m self)) = table_stock self
     ∧ notification_queue (fst (sort_new_messages cfg now m self))
       = notification_queue self).
Proof.
  intros Hdata. unfold sort_new_messages, subscript. rewrite Hdata.
  case_bool_decide as Hres.
  { destruct (update_table_server _ _ m) as [[stock queue] r]. simpl.
    split; [done|]. split; [done|].
    intros Hnone. apply elem_of_dom in Hres as [? Hres]. congruence. }
  destruct (data !! "type") as [type|] eqn:Htype;
    [|split; [done|]; split; [done|]; intros _ [=]].
  destruct (py_eq type (VStr "ledgerClosed")) eqn:Hledger.
  { apply py_eq_str in Hledger as ->.
    destruct (update_table_ledger _ m) as [stock r]. simpl.
    split; [done|]. split; [done|]. intros _ [=]. }
  destruct (py_eq type (VStr "validationReceived")) eqn:Hval.
  - apply py_eq_str in Hval as ->.
    destruct (Validation.check_validations _ _ m _) as [s r]. simpl.
    split; [done|]. split; [|done].
    intros [Hsome | Hne]; [|done].
    apply elem_of_dom in Hsome. done.
  - simpl. done.
Qed.

(** *** The triggers *)

(** X22.  The fork check is rate limited and retried: after a check that
    returned at [now], no check runs for any message up to and including
    [now + FORK_CHECK_FREQ]; a check in which the fork checker raised
    leaves the time of the last check as it was, so the check is due again
    at every later message. *)
Theorem fork_check_rate cfg now self self' :
  fork_due cfg now self = true →
  (evaluate_forks cfg now self = (self', None) →
   time_fork_check self' = now
   ∧ ∀ now', now' ≤ now + FORK_CHECK_FREQ cfg →
             evaluate_forks cfg now' self' = (self', None))
  ∧ (∀ e, evaluate_forks cfg now self = (self', Some e) →
          time_fork_check self' = time_fork_check self
          ∧ ∀ now', now ≤ now' → fork_due cfg now' self' = true).
Proof.
  unfold fork_due. intros Hdue%bool_decide_eq_true.
  unfold evaluate_forks. rewrite bool_decide_eq_true_2 by done.
  destruct (fork_checker _ _ _ _) as [queue [e|[[modes stock] validators]]].
  - split; [done|]. intros e' [= <- <-]. simpl. split; [done|].
    intros now' Hlater. apply bool_decide_eq_true_2. lia.
  - split; [|done]. intros [= <-]. simpl. split; [done|].
    intros now' Hsoon. by rewrite bool_decide_eq_false_2 by lia.
Qed.

(** X23.  A heartbeat that is due while no network mode is known raises
    [IndexError] and changes nothing, not even the time of the last
    heartbeat, so it is due again at every later message; a heartbeat that
    was sent at [now] is followed by none before [now + HEARTBEAT_INTERVAL]. *)
Theorem heartbeat_rate cfg now self :
  heartbeat_due cfg now self = true →
  (ll_modes self = [] →
   heartbeat_message cfg now self = (self, Some IndexError)
   ∧ ∀ now', now ≤ now' → heartbeat_due cfg now' self = true)
  ∧ (∀ self', heartbeat_message cfg now self = (self', None) →
              ∀ now', now' < now + HEARTBEAT_INTERVAL cfg →
                      heartbeat_message cfg now' self' = (self', None)).
Proof.
  unfold heartbeat_due, heartbeat_message.
  intros [Hon Hdue%bool_decide_eq_true]%andb_true_iff. rewrite Hon. simpl.
  rewrite bool_decide_eq_true_2 by done. split.
  - intros ->. split; [done|]. intros now' Hlater.
    apply bool_decide_eq_true_2. lia.
  - intros self'. destruct (ll_modes self) as [|mode modes]; [done|].
    intros [= <-] now' Hsoon. simpl.
    by rewrite bool_decide_eq_false_2 by lia.
Qed.

(** X24.  The console refresh is rate limited and retried in the same way:
    after a refresh that returned at [now] there is none before
    [now + CONSOLE_REFRESH_TIME]; a refresh in which printing raised leaves
    the time of the last output as it was; and with no validator in the
    table the validator table is not printed. *)
Theorem console_refresh_rate cfg now self self' :
  console_due cfg now self = true →
  (process_console_output cfg now self = (self', None) →
   time_last_output self' = now
   ∧ ∀ now', now' < now + CONSOLE_REFRESH_TIME cfg →
             process_console_output cfg now' self' = (self', None))
  ∧ (∀ e, process_console_output cfg now self = (self', Some e) →
          time_last_output self' = time_last_output self)
  ∧ (table_validator self = [] →
     ∀ r, process_console_output cfg now self = (self', r) →
          trace self' = trace self ++ [EClear; EPrintTableServer]).
Proof.
  unfold console_due, process_console_output.
  intros Hdue. rewrite Hdue. simpl.
  apply andb_true_iff in Hdue as [Hon Hdue%bool_decide_eq_true].
  destruct (print_table_server _) as [e|].
  { split; [done|]. split.
    - by intros e' [= <- _].
    - intros _ r [= <- _]. simpl. by rewrite <- app_assoc. }
  destruct (table_validator self) as [|v table] eqn:Htable.
  - split; [|split]; [| done |].
    + intros [= <-]. simpl. split; [done|]. intros now' Hsoon.
      rewrite Hon. simpl. by rewrite bool_decide_eq_false_2 by lia.
    + intros _ r [= <- _]. simpl. by rewrite <- app_assoc.
  - destruct (Rendering.print_table_validation _) as [e|rows]; simpl.
    + split; [done|]. split; [|done]. by intros e' [= <- _].
    + split; [|split]; [| done | done].
      intros [= <-]. simpl. split; [done|]. intros now' Hsoon.
      rewrite Hon. simpl. by rewrite bool_decide_eq_false_2 by lia.
Qed.

(** A refresh that is due on a table with a record the console table
    cannot show raises, and leaves the time of the last output as it was. *)
Lemma process_console_output_stuck cfg now self :
  console_due cfg now self = true →
  ¬ Forall RenderingExtras.printable (table_validator self) →
  ∃ e, snd (process_console_output cfg now self) = Some e
       ∧ time_last_output (fst (process_console_output cfg now self))
         = time_last_output self.
Proof.
  unfold console_due, process_console_output. intros -> Htable. simpl.
  destruct (print_table_server _) as [e|]; [eauto|].
  destruct (table_validator self) as [|v table] eqn:Hrecords;
    [by destruct Htable|].
  destruct (Rendering.print_table_validation (v :: table)) as [e|rows] eqn:Hprint;
    [eauto|].
  destruct (RenderingExtras.print_table_validation_returned (v :: table)
              rows Hprint) as [Hprintable _].
  by destruct Htable.
Qed.

(** X25.  A record the console table cannot show silences the heartbeat.
    When the console refresh is due at a message and the validator table,
    as the dispatch and the fork check leave it, has a record that lacks
    one of the twelve fields the table reads, the processing of the message
    raises before the heartbeat: none is sent, even when it is due, and the
    times of the last console output and of the last heartbeat stay as they
    were, so the refresh is due again at the next message. *)
Theorem unprintable_record_skips_heartbeat cfg now m self self' r :
  console_due cfg now self = true →
  ¬ Forall RenderingExtras.printable
      (table_validator
         (fst (evaluate_forks cfg now (fst (sort_new_messages cfg now m self))))) →
  body cfg now m self = (self', r) →
  is_Some r
  ∧ heartbeats (trace self') = heartbeats (trace self)
  ∧ last_heartbeat self' = last_heartbeat self
  ∧ time_last_output self' = time_last_output self.
Proof.
  intros Hdue Htable.
  destruct (triggers_see_original_clocks cfg now m self) as (_ & Hconsole & _ & _).
  pose proof (sort_new_messages_idle cfg now m self) as [Hb1 Hh1].
  destruct (sort_new_messages_frame cfg now m self)
    as (routed & _ & _ & _ & Ho1 & _).
  pose proof (evaluate_forks_idle cfg now
                (fst (sort_new_messages cfg now m self))) as [Hb2 Hh2].
  destruct (evaluate_forks_fires cfg now (fst (sort_new_messages cfg now m self)))
    as (_ & _ & Ho2 & _).
  pose proof (process_console_output_idle cfg now
                (fst (evaluate_forks cfg now
                        (fst (sort_new_messages cfg now m self))))) as [Hb3 Hh3].
  destruct (process_console_output_stuck cfg now
              (fst (evaluate_forks cfg now
                      (fst (sort_new_messages cfg now m self)))))
    as (e & Hraise & Ho3); [by rewrite Hconsole | done |].
  unfold body, and_then.
  destruct (sort_new_messages cfg now m self) as [s1 [e1|]]; simpl in *.
  { intros [= <- <-]. split; [eauto|]. repeat split; congruence. }
  destruct (evaluate_forks cfg now s1) as [s2 [e2|]]; simpl in *.
  { intros [= <- <-]. split; [eauto|]. repeat split; congruence. }
  destruct (process_console_output cfg now s2) as [s3 [e3|]]; simpl in *; [|done].
  intros [= <- <-]. split; [eauto|]. repeat split; congruence.
Qed.

(** *** The loop *)

(** A step that leaves the key set and the signature log as it found them. *)
Definition keeps_log (self self' : processor) : Prop :=
  val_keys self' = val_keys self
  ∧ processed_validations self' = processed_validations self.

Lemma keeps_log_trans s1 s2 s3 : keeps_log s1 s2 → keeps_log s2 s3 → keeps_log s1 s3.
Proof. intros [? ?] [? ?]. split; congruence. Qed.

Lemma evaluate_forks_keeps_log cfg now self :
  keeps_log self (fst (evaluate_forks cfg now self)).
Proof.
  unfold evaluate_forks, keeps_log. case_bool_decide; [|done].
  by destruct (fork_checker _ _ _ _) as [queue [e|[[modes stock] validators]]].
Qed.

Lemma process_console_output_keeps_log cfg now self :
  keeps_log self (fst (process_console_output cfg now self)).
Proof.
  unfold process_console_output, keeps_log.
  destruct (CONSOLE_OUT cfg && bool_decide (_ ≤ _)); [|done]. simpl.
  destruct (print_table_server _); [done|].
  destruct (table_validator self); [done|].
  by destruct (Rendering.print_table_validation _).
Qed.

Lemma heartbeat_message_keeps_log cfg now self :
  keeps_log self (fst (heartbeat_message cfg now self)).
Proof.
  unfold heartbeat_message, keeps_log.
  destruct (ADMIN_HEARTBEAT cfg && bool_decide (_ ≤ _)); [|done].
  by destruct (ll_modes self).
Qed.

Lemma handle_keeps_log mo e self : keeps_log self (fst (handle mo e self)).
Proof. unfold handle, keeps_log. by destruct e, mo. Qed.

(** After the dispatch of a message nothing in its iteration touches the
    key set or the log. *)
Lemma iteration_after_dispatch cfg now m self :
  keeps_log (fst (sort_new_messages cfg now m self))
            (fst (iteration cfg self (Arrive now m))).
Proof.
  unfold iteration.
  destruct (body cfg now m self) as [self' r] eqn:Hbody.
  pose proof (evaluate_forks_keeps_log cfg now
                (fst (sort_new_messages cfg now m self))) as H2.
  pose proof (process_console_output_keeps_log cfg now
                (fst (evaluate_forks cfg now
                        (fst (sort_new_messages cfg now m self))))) as H3.
  pose proof (heartbeat_message_keeps_log cfg now
                (fst (process_console_output cfg now
                        (fst (evaluate_forks cfg now
                                (fst (sort_new_messages cfg now m self))))))) as H4.
  assert (Hbody' : keeps_log (fst (sort_new_messages cfg now m self)) self').
  { destruct (body_cases cfg now m self self' r Hbody)
      as [[_ [-> | [[-> _] | ->]]] | (_ & _ & _ & Hbeat)].
    - by split.
    - exact H2.
    - exact (keeps_log_trans _ _ _ H2 H3).
    - rewrite Hbeat in H4. exact (keeps_log_trans _ _ _ (keeps_log_trans _ _ _ H2 H3) H4). }
  destruct r as [e|]; [|exact Hbody'].
  exact (keeps_log_trans _ _ _ Hbody' (handle_keeps_log (Some m) e self')).
Qed.

(** The log after a dispatch: untouched, or the log the validation handler
    returned. *)
Lemma sort_new_messages_log cfg now m self :
  processed_validations (fst (sort_new_messages cfg now m self))
  = processed_validations self
  ∨ processed_validations (fst (sort_new_messages cfg now m self))
    = Validation.processed_validations
        (fst (Validation.check_validations cfg (validation_state self) m
                (strftime_local now))).
Proof.
  unfold sort_new_messages.
  destruct (msg_data m) as [data|]; [|by left].
  case_bool_decide.
  { destruct (update_table_server _ _ m) as [[stock queue] r]. by left. }
  destruct (subscript data "type") as [e|type]; [by left|].
  destruct (py_eq type (VStr "ledgerClosed")).
  { destruct (update_table_ledger _ m) as [stock r]. by left. }
  destruct (py_eq type (VStr "validationReceived")); [|by left].
  right. change (validation_state (emit (ECheckValidations m) self))
           with (validation_state self).
  by destruct (Validation.check_validations _ _ m _) as [s r].
Qed.

(** X26.  The ceiling on the signature log holds for the processor as a
    whole: with [PROCESSED_VAL_MAX] at least 2, and below 2^1024 so that
    its half is a double, and a log below it, the log is below it after any
    run of the loop, whatever arrives and whatever the collaborators do. *)
Theorem loop_log_bounded cfg arrivals : ∀ self,
  2 ≤ PROCESSED_VAL_MAX cfg < 2 ^ 1024 →
  Z.of_nat (length (processed_validations self)) < PROCESSED_VAL_MAX cfg →
  Z.of_nat (length (processed_validations (fst (loop cfg self arrivals))))
  < PROCESSED_VAL_MAX cfg.
Proof.
  induction arrivals as [|a arrivals IH]; intros self Hmax Hlen; simpl; [done|].
  assert (Hstep : Z.of_nat (length (processed_validations
                                      (fst (iteration cfg self a))))
                  < PROCESSED_VAL_MAX cfg).
  { destruct a as [now m| |].
    - destruct (iteration_after_dispatch cfg now m self) as [_ ->].
      destruct (sort_new_messages_log cfg now m self) as [-> | ->]; [done|].
      by apply LogFacts.check_validations_below.
    - exact Hlen.
    - exact Hlen. }
  destruct (iteration cfg self a) as [self' [| |e]]; [by apply IH | done | done].
Qed.

(** Collaborators that raise nothing but instances of [Exception]. *)
Definition ordinary : Prop :=
  (∀ stock queue m e,
     snd (update_table_server stock queue m) = Some e → is_Exception e = true)
  ∧ (∀ stock m e,
       snd (update_table_ledger stock m) = Some e → is_Exception e = true)
  ∧ (∀ cfg stock validators queue e,
       snd (fork_checker cfg stock validators queue) = inl e →
       is_Exception e = true)
  ∧ (∀ stock e, print_table_server stock = Some e → is_Exception e = true)
  ∧ (∀ s e, decode_version s = inl e → is_Exception e = true).

Lemma body_raises_exceptions cfg now m self self' e :
  ordinary →
  body cfg now m self = (self', Some e) →
  is_Exception e = true.
Proof.
  intros (Hserver & Hledger & Hfork & Hprint & Hdecode).
  unfold body, and_then.
  destruct (sort_new_messages cfg now m self) as [s1 [e1|]] eqn:Hsort.
  { intros [= <- <-]. revert Hsort. unfold sort_new_messages.
    destruct (msg_data m) as [data|]; [|by intros [= <- <-]].
    case_bool_decide.
    { destruct (update_table_server _ _ m) as [[stock queue] r] eqn:Hs.
      intros [= <- ->]. exact (Hserver _ _ _ e1 (f_equal snd Hs)). }
    unfold subscript. destruct (data !! "type") as [type|]; [|by intros [= <- <-]].
    destruct (py_eq type (VStr "ledgerClosed")).
    { destruct (update_table_ledger _ m) as [stock r] eqn:Hs.
      intros [= <- ->]. exact (Hledger _ _ e1 (f_equal snd Hs)). }
    destruct (py_eq type (VStr "validationReceived")); [|done].
    destruct (Validation.check_validations _ _ m _) as [s r] eqn:Hs.
    intros [= <- ->].
    exact (HandlerExtras.check_validations_raises_exceptions
             cfg _ m _ e1 (f_equal snd Hs)). }
  destruct (evaluate_forks cfg now s1) as [s2 [e2|]] eqn:Hforks.
  { intros [= <- <-]. revert Hforks. unfold evaluate_forks.
    case_bool_decide; [|done].
    destruct (fork_checker _ _ _ _) as [queue [e'|[[modes stock] validators]]] eqn:Hf;
      [|done].
    intros [= <- ->]. exact (Hfork cfg _ _ _ e2 (f_equal snd Hf)). }
  destruct (process_console_output cfg now s2) as [s3 [e3|]] eqn:Hconsole.
  { intros [= <- <-]. revert Hconsole. unfold process_console_output.
    destruct (CONSOLE_OUT cfg && bool_decide (_ ≤ _)); [|done]. simpl.
    destruct (print_table_server _) as [e'|] eqn:Hp.
    { intros [= <- ->]. by apply (Hprint _ e3 Hp). }
    destruct (table_validator s2) as [|v table]; [done|].
    destruct (Rendering.print_table_validation _) as [e'|rows] eqn:Hp'; [|done].
    intros [= <- ->].
    destruct (RenderingExtras.print_table_validation_raised _ e3 Hp')
      as [(k & _ & -> & _) | [s Hs]]; [done | by apply (Hdecode s)]. }
  unfold heartbeat_message.
  destruct (ADMIN_HEARTBEAT cfg && bool_decide (_ ≤ _)); [|done].
  destruct (ll_modes s3); [|done]. by intros [= <- <-].
Qed.

(** An arrival that ends the wait on the queue. *)
Definition is_interrupt (a : arrival) : bool :=
  match a with
  | Arrive _ _ => false
  | Cancel | CtrlC => true
  end.

(** X27.  With collaborators that raise nothing but instances of
    [Exception], no message ends the loop and no exception escapes it: after
    any run of arrivals the loop is running, unless one of them was a
    cancellation or a keyboard interrupt, at which it has stopped.  What
    the two files raise themselves ([KeyError], [IndexError] and the
    [OverflowError] of the prune) are instances of [Exception]. *)
Theorem loop_ends_only_by_interrupt cfg arrivals : ∀ self,
  ordinary →
  snd (loop cfg self arrivals)
  = if existsb is_interrupt arrivals then Stopped else Running.
Proof.
  intros self Hord. revert self.
  induction arrivals as [|a arrivals IH]; intros self; simpl; [done|].
  destruct a as [now m| |]; simpl; [|done|done].
  destruct (body cfg now m self) as [self' [e|]] eqn:Hbody; [|apply IH].
  pose proof (body_raises_exceptions cfg now m self self' e Hord Hbody) as He.
  destruct e; try done; simpl; apply IH.
Qed.

(** X28.  The key set and the signature log change at validation messages
    only: an iteration for a message that has a [result] field, or whose
    [type] is not [validationReceived], leaves both as they were, whatever
    the triggers and the collaborators do. *)
Theorem keys_change_at_validations_only cfg now m data self :
  msg_data m = Some data →
  is_Some (data !! "result") ∨ data !! "type" ≠ Some (VStr "validationReceived") →
  val_keys (fst (iteration cfg self (Arrive now m))) = val_keys self
  ∧ processed_validations (fst (iteration cfg self (Arrive now m)))
    = processed_validations self.
Proof.
  intros Hdata Hshape.
  destruct (iteration_after_dispatch cfg now m self) as [-> ->].
  unfold sort_new_messages, subscript. rewrite Hdata.
  case_bool_decide as Hres.
  { by destruct (update_table_server _ _ m) as [[stock queue] r]. }
  destruct (data !! "type") as [type|] eqn:Htype; [|done].
  destruct (py_eq type (VStr "ledgerClosed")).
  { by destruct (update_table_ledger _ m) as [stock r]. }
  destruct (py_eq type (VStr "validationReceived")) eqn:Hval; [|done].
  apply py_eq_str in Hval as ->.
  destruct Hshape as [Hsome | Hne]; [|done].
  by apply elem_of_dom in Hsome.
Qed.

End Extras.

Lemma sort_new_messages_separation_witness :
  let m := Message (Some (list_to_map [("result", VStr "ok");
                                       ("type", VStr "validationReceived");
                                       ("master_key", VStr "M1");
                                       ("signature", VStr "S1")]))
                   (Some (VStr "wss://s1")) in
  processed_validations (fst (@sort_new_messages quiet (config 4 true) 0 m ready)) = []
  ∧ table_validator (fst (@sort_new_messages quiet (config 4 true) 0 m ready)) = roster.
Proof.
  intros m.
  destruct (proj1 (proj2 (@sort_new_messages_separation quiet (config 4 true) 0 m
                            (list_to_map [("result", VStr "ok");
                                          ("type", VStr "validationReceived");
                                          ("master_key", VStr "M1");
                                          ("signature", VStr "S1")])
                            ready eq_refl)))
    as (_ & Htable & Hlog).
  - left. eexists. vm_compute. reflexivity.
  - split; [exact Hlog | exact Htable].
Defined.

Lemma fork_check_rate_witness :
  let cfg := config 4 true in
  let self' := fst (@evaluate_forks quiet cfg 61 ready) in
  time_fork_check self' = 61
  ∧ @evaluate_forks quiet cfg 91 self' = (self', None).
Proof.
  intros cfg self'.
  assert (Hdue : @fork_due quiet cfg 61 ready = true) by (vm_compute; reflexivity).
  destruct (proj1 (@fork_check_rate quiet cfg 61 ready self' Hdue))
    as [Htime Hquiet].
  - vm_compute. reflexivity.
  - split; [exact Htime|]. apply Hquiet. vm_compute. discriminate.
Defined.

Lemma heartbeat_rate_witness :
  let cfg := Settings 4 true 1000 false 5 true 60 ["admin-1"] in
  @heartbeat_message quiet cfg 61 ready = (ready, Some IndexError)
  ∧ @heartbeat_due quiet cfg 500 ready = true.
Proof.
  intros cfg.
  assert (Hdue : @heartbeat_due quiet cfg 61 ready = true)
    by (vm_compute; reflexivity).
  destruct (proj1 (@heartbeat_rate quiet cfg 61 ready Hdue) eq_refl)
    as [Hraise Hlater].
  split; [exact Hraise|]. apply Hlater. vm_compute. discriminate.
Defined.

Lemma console_refresh_rate_witness :
  let cfg := config 4 true in
  let self' := fst (@process_console_output quiet cfg 30 ready_complete) in
  let stuck := fst (@process_console_output quiet cfg 30 ready) in
  (time_last_output self' = 30
   ∧ @process_console_output quiet cfg 34 self' = (self', None))
  ∧ snd (@process_console_output quiet cfg 30 ready) = Some (KeyError "ledger_hash")
  ∧ time_last_output stuck = time_last_output ready.
Proof.
  intros cfg self' stuck.
  assert (Hdue : @console_due quiet cfg 30 ready_complete = true)
    by (vm_compute; reflexivity).
  assert (Hdue' : @console_due quiet cfg 30 ready = true)
    by (vm_compute; reflexivity).
  split; [|split; [vm_compute; reflexivity|]].
  - destruct (proj1 (@console_refresh_rate quiet cfg 30 ready_complete self' Hdue))
      as [Htime Hquiet].
    + vm_compute. reflexivity.
    + split; [exact Htime|]. apply Hquiet. vm_compute. reflexivity.
  - apply (proj1 (proj2 (@console_refresh_rate quiet cfg 30 ready stuck Hdue'))
             (KeyError "ledger_hash")).
    vm_compute. reflexivity.
Defined.

Lemma unprintable_record_skips_heartbeat_witness :
  let cfg := config 4 true in
  let m := vote "M1" "S1" 101 in
  @heartbeat_due quiet cfg 61 ready = true
  ∧ snd (@body quiet cfg 61 m ready) = Some (KeyError "ledger_hash")
  ∧ heartbeats (trace (fst (@body quiet cfg 61 m ready))) = 0%nat
  ∧ notification_queue (fst (@body quiet cfg 61 m ready)) = [].
Proof.
  intros cfg m.
  split; [vm_compute; reflexivity|]. split; [vm_compute; reflexivity|].
  split; [|vm_compute; reflexivity].
  refine (eq_trans (proj1 (proj2
            (@unprintable_record_skips_heartbeat quiet cfg 61 m ready
               (fst (@body quiet cfg 61 m ready))
               (snd (@body quiet cfg 61 m ready)) _ _ _))) _).
  - vm_compute. reflexivity.
  - intros Hall.
    assert (Hfield : Forall is_Some
                       (map (fun v : dict => v !! "ledger_hash")
                            (table_validator
                               (fst (@evaluate_forks quiet cfg 61
                                       (fst (@sort_new_messages quiet cfg 61 m ready))))))).
    { apply Forall_fmap. eapply Forall_impl; [exact Hall|].
      intros v Hv. simpl.
      apply (proj1 (@RenderingExtras.printable_lookup v) Hv).
      unfold RenderingExtras.fields, Rendering.columns.
      rewrite !elem_of_cons. tauto. }
    assert (Hnone : map (fun v : dict => v !! "ledger_hash")
                        (table_validator
                           (fst (@evaluate_forks quiet cfg 61
                                   (fst (@sort_new_messages quiet cfg 61 m ready)))))
                    = [None]) by (vm_compute; reflexivity).
    rewrite Hnone in Hfield. apply Forall_cons in Hfield as [[x Hx] _].
    discriminate Hx.
  - apply surjective_pairing.
  - vm_compute. reflexivity.
Defined.

Lemma loop_log_bounded_witness :
  let arrivals := [Arrive 0 (vote "M1" "S1" 101); Arrive 10 transaction;
                   Arrive 20 (vote "M1" "S2" 102); Arrive 30 shapeless;
                   Arrive 40 (vote "M1" "S3" 103)] in
  Z.of_nat (length (processed_validations
                      (fst (@loop quiet (config 2 true) ready arrivals)))) < 2
  ∧ processed_validations (fst (@loop quiet (config 2 true) ready arrivals))
    = [VStr "S3"].
Proof.
  intros arrivals. split; [|vm_compute; reflexivity].
  apply (@loop_log_bounded quiet (config 2 true) arrivals ready).
  - simpl. split; [lia|].
    apply Z.lt_trans with (2 ^ 2); [lia | apply Z.pow_lt_mono_r; lia].
  - simpl. lia.
Defined.

Lemma quiet_ordinary : @ordinary quiet.
Proof. repeat split; intros; discriminate. Defined.

Lemma loop_ends_only_by_interrupt_witness :
  snd (@loop quiet (config 2 true) ready
         [Arrive 0 (vote "M1" "S1" 101); Arrive 30 shapeless;
          Arrive 61 (vote "M1" "S2" 102)]) = Running
  ∧ snd (@loop quiet (config 2 true) ready
           [Arrive 0 (vote "M1" "S1" 101); Cancel;
            Arrive 61 (vote "M1" "S2" 102)]) = Stopped.
Proof.
  split.
  - exact (@loop_ends_only_by_interrupt quiet (config 2 true)
             [Arrive 0 (vote "M1" "S1" 101); Arrive 30 shapeless;
              Arrive 61 (vote "M1" "S2" 102)] ready quiet_ordinary).
  - exact (@loop_ends_only_by_interrupt quiet (config 2 true)
             [Arrive 0 (vote "M1" "S1" 101); Cancel;
              Arrive 61 (vote "M1" "S2" 102)] ready quiet_ordinary).
Defined.

Lemma keys_change_at_validations_only_witness :
  val_keys (fst (@iteration quiet (config 2 true) ready (Arrive 61 transaction)))
  = [VStr "M1"; VStr "E1"]
  ∧ processed_validations
      (fst (@iteration quiet (config 2 true) ready (Arrive 61 transaction))) = [].
Proof.
  apply (@keys_change_at_validations_only quiet (config 2 true) 61 transaction
           (list_to_map [("type", VStr "transaction")]) ready).
  - reflexivity.
  - right. vm_compute. discriminate.
Defined.

End ProcessorExtras.
